(** * A shallow embedding of the byte scanner of [parser.go]

    The Go package locates JSON values inside a byte buffer without building
    a tree.  Every scanner primitive of the source is transcribed below as a
    function over [list byte]; Go's [int] is [Z] (all indices the code
    computes are bounded by the length of the buffer, far below 2^63), the
    sentinel "not found" is the integer [-1] exactly as in the source, and
    the run-time panics of indexing and slicing are explicit. *)

From Stdlib Require Import ZArith List Lia Bool Arith.
From Stdlib Require Import Strings.String Strings.Byte.
Import ListNotations.
Local Open Scope Z_scope.

(** ** Outcomes of running Go code *)

Module GoRun.

(** A call either returns, panics (index or slice bound out of range), or
    the iteration budget granted to a [for cond { ... }] loop of the model is
    used up.  [OutOfFuel] is not a behaviour of the program: a run that is
    [OutOfFuel] for every budget is a run that never returns. *)
Inductive exec (A : Type) : Type :=
| Done (a : A)
| Panic
| OutOfFuel.

Arguments Done {A} a.
Arguments Panic {A}.
Arguments OutOfFuel {A}.

End GoRun.
Export GoRun.

Notation "x <- e ;; k" :=
  (match e with
   | Done x => k
   | Panic => Panic
   | OutOfFuel => OutOfFuel
   end)
  (at level 61, e at next level, right associativity, only parsing).

(** ** Byte slices and strings *)

Definition bytes := list byte.

(** A returned [[]byte]: [None] is the nil slice. *)
Definition slice := option bytes.

Definition contents (s : slice) : bytes :=
  match s with
  | Some b => b
  | None => []
  end.

Definition len {A : Type} (d : list A) : Z := Z.of_nat (List.length d).

(** [d[i]] *)
Definition index {A : Type} (d : list A) (i : Z) : exec A :=
  if i <? 0 then Panic
  else match nth_error d (Z.to_nat i) with
       | Some c => Done c
       | None => Panic
       end.

(** [d[a:]] *)
Definition slice_from (d : bytes) (a : Z) : exec bytes :=
  if (0 <=? a) && (a <=? len d) then Done (skipn (Z.to_nat a) d) else Panic.

(** [d[:b]] *)
Definition slice_to (d : bytes) (b : Z) : exec bytes :=
  if (0 <=? b) && (b <=? len d) then Done (firstn (Z.to_nat b) d) else Panic.

(** [d[a:b]] *)
Definition slice_between (d : bytes) (a b : Z) : exec bytes :=
  if (0 <=? a) && (a <=? b) && (b <=? len d)
  then Done (firstn (Z.to_nat (b - a)) (skipn (Z.to_nat a) d))
  else Panic.

(** [bytes.Equal], also the [==] of two Go strings. *)
Fixpoint bytes_eqb (a b : bytes) : bool :=
  match a, b with
  | [], [] => true
  | x :: a', y :: b' => Byte.eqb x y && bytes_eqb a' b'
  | _, _ => false
  end.

(** The bytes of a literal without double quotes. *)
Definition bs (s : string) : bytes := list_byte_of_string s.

Definition quote : byte := x22.
Definition backslash : byte := x5c.
Definition newline : byte := x0a.
Definition carriage : byte := x0d.
Definition tab : byte := x09.
Definition space : byte := " "%byte.
Definition comma : byte := ","%byte.
Definition colon : byte := ":"%byte.
Definition lbrace : byte := "{"%byte.
Definition rbrace : byte := "}"%byte.
Definition lbracket : byte := "["%byte.
Definition rbracket : byte := "]"%byte.

(** A JSON string literal: the text between two double quotes. *)
Definition quoted (s : string) : bytes := quote :: bs s ++ [quote].

(** [case ' ', '\n', '\r', '\t'] *)
Definition is_whitespace (c : byte) : bool :=
  Byte.eqb c space || Byte.eqb c newline || Byte.eqb c carriage || Byte.eqb c tab.

(** [case ' ', '\n', '\r', '\t', ',', '}', ']'] *)
Definition is_token_terminator (c : byte) : bool :=
  is_whitespace c || Byte.eqb c comma || Byte.eqb c rbrace || Byte.eqb c rbracket.

(** [case 't', 'f', 'n'] *)
Definition is_literal_start (c : byte) : bool :=
  Byte.eqb c "t"%byte || Byte.eqb c "f"%byte || Byte.eqb c "n"%byte.

(** [case '0', '1', ..., '9', '-'] *)
Definition is_number_start (c : byte) : bool :=
  Byte.eqb c "0"%byte || Byte.eqb c "1"%byte || Byte.eqb c "2"%byte ||
  Byte.eqb c "3"%byte || Byte.eqb c "4"%byte || Byte.eqb c "5"%byte ||
  Byte.eqb c "6"%byte || Byte.eqb c "7"%byte || Byte.eqb c "8"%byte ||
  Byte.eqb c "9"%byte || Byte.eqb c "-"%byte.

(** ** Errors and value types *)

(** The package-level error variables, and the errors made by a call of
    [errors.New] inside a function.  Go compares errors by identity, so a
    value made inside a function differs from every package variable, also
    from one with the same text. *)
Inductive error : Type :=
| KeyPathNotFoundError
| UnknownValueTypeError
| MalformedJsonError
| MalformedStringError
| MalformedArrayError
| MalformedObjectError
| MalformedNumberError
| MalformedLiteralError
| ExpectedArrayError
| errors_New (text : string).

Inductive ValueType : Type :=
| NotExist
| String
| Number
| Object
| Array
| Boolean
| Null
| Unknown.

Definition ValueType_eqb (a b : ValueType) : bool :=
  match a, b with
  | NotExist, NotExist | String, String | Number, Number | Object, Object
  | Array, Array | Boolean, Boolean | Null, Null | Unknown, Unknown => true
  | _, _ => false
  end.

(** The four results of [Get] and [GetValue]; [None] is the nil error. *)
Definition extraction : Type := slice * ValueType * Z * option error.

(** ** Scanner primitives *)

(** [for i, c := range data] of [tokenEnd], at index [i] with [data] left. *)
Fixpoint tokenEnd_range (i : Z) (data : bytes) : Z :=
  match data with
  | [] => -1
  | c :: rest => if is_token_terminator c then i else tokenEnd_range (i + 1) rest
  end.

Definition tokenEnd (data : bytes) : Z := tokenEnd_range 0 data.

Fixpoint nextToken_range (i : Z) (data : bytes) : Z :=
  match data with
  | [] => -1
  | c :: rest => if is_whitespace c then nextToken_range (i + 1) rest else i
  end.

Definition nextToken (data : bytes) : Z := nextToken_range 0 data.

Fixpoint nextArrayElement_range (i : Z) (seenComma : bool) (data : bytes) : Z :=
  match data with
  | [] => -1
  | c :: rest =>
      if is_whitespace c then nextArrayElement_range (i + 1) seenComma rest
      else if Byte.eqb c comma then
        if seenComma then -1 else nextArrayElement_range (i + 1) true rest
      else
        if negb seenComma then -1 else i
  end.

Definition nextArrayElement (data : bytes) : Z :=
  nextArrayElement_range 0 false data.

(** The inner [for] of [stringEnd], entered with [j = k - 1]: [true] when it
    leaves through [return i + 1], [false] when it leaves through [break].
    [j < 0] is [k = 0]; every [data[j]] read has [j] below the index of the
    quote, hence in range. *)
Fixpoint backslashes_even (data : bytes) (k : nat) : bool :=
  match k with
  | O => true
  | S j =>
      if negb (Byte.eqb (nth j data x00) backslash) then true
      else
        match j with
        | O => false
        | S j' =>
            if negb (Byte.eqb (nth j' data x00) backslash) then false
            else backslashes_even data j'
        end
  end.

(** The [range] loop of [stringEnd] at index [i], [rest] being [data[i:]]. *)
Fixpoint stringEnd_range (data : bytes) (i : nat) (rest : bytes) : Z :=
  match rest with
  | [] => -1
  | c :: rest' =>
      if Byte.eqb c quote then
        if backslashes_even data i then Z.of_nat i + 1
        else stringEnd_range data (S i) rest'
      else stringEnd_range data (S i) rest'
  end.

Definition stringEnd (data : bytes) : Z := stringEnd_range data 0 data.

(** The [for i < ln] loop of [blockEnd]. *)
Fixpoint blockEnd_loop (fuel : nat) (data : bytes) (openSym closeSym : byte)
  (i level : Z) : exec Z :=
  match fuel with
  | O => OutOfFuel
  | S fuel' =>
      if negb (i <? len data) then Done (-1)
      else
        c <- index data i ;;
        if Byte.eqb c quote then
          tail <- slice_from data (i + 1) ;;
          let se := stringEnd tail in
          if se =? -1 then Done (-1)
          else blockEnd_loop fuel' data openSym closeSym (i + se + 1) level
        else if Byte.eqb c openSym then
          blockEnd_loop fuel' data openSym closeSym (i + 1) (level + 1)
        else if Byte.eqb c closeSym then
          let level := level - 1 in
          if level =? 0 then Done (i + 1)
          else blockEnd_loop fuel' data openSym closeSym (i + 1) level
        else blockEnd_loop fuel' data openSym closeSym (i + 1) level
  end.

(** [i] grows in every iteration, so [len(data)] iterations and the final
    test are all the loop can take ([blockEnd_returns] below). *)
Definition blockEnd (data : bytes) (openSym closeSym : byte) : exec Z :=
  blockEnd_loop (S (List.length data)) data openSym closeSym 0 0.

(** ** Key-path search *)

(** The [for i < ln] loop of [searchKeys]; a Go string is its bytes.  The
    source adds [arraySkip - 1] to [i] without testing [arraySkip], so [i]
    can move backwards: the loop has no bound and takes its budget from the
    caller. *)
Fixpoint searchKeys_loop (fuel : nat) (data : bytes) (keys : list bytes)
  (i level keyLevel : Z) : exec Z :=
  match fuel with
  | O => OutOfFuel
  | S fuel' =>
      if negb (i <? len data) then Done (-1)
      else
        c <- index data i ;;
        if Byte.eqb c quote then
          let i := i + 1 in
          let keyBegin := i in
          tail <- slice_from data i ;;
          let strEnd := stringEnd tail in
          if strEnd =? -1 then Done (-1)
          else
            let i := i + strEnd in
            let keyEnd := i - 1 in
            tail <- slice_from data i ;;
            let valueOffset := nextToken tail in
            if valueOffset =? -1 then Done (-1)
            else
              let i := i + valueOffset in
              c <- index data i ;;
              if Byte.eqb c colon then
                key <- slice_between data keyBegin keyEnd ;;
                matched <- (if keyLevel =? level - 1
                            then k <- index keys (level - 1) ;; Done (bytes_eqb k key)
                            else Done false) ;;
                if matched then
                  let keyLevel := keyLevel + 1 in
                  if keyLevel =? len keys then Done (i + 1)
                  else searchKeys_loop fuel' data keys (i + 1) level keyLevel
                else searchKeys_loop fuel' data keys (i + 1) level keyLevel
              else searchKeys_loop fuel' data keys (i - 1 + 1) level keyLevel
        else if Byte.eqb c lbrace then
          searchKeys_loop fuel' data keys (i + 1) (level + 1) keyLevel
        else if Byte.eqb c rbrace then
          searchKeys_loop fuel' data keys (i + 1) (level - 1) keyLevel
        else if Byte.eqb c lbracket then
          tail <- slice_from data i ;;
          arraySkip <- blockEnd tail lbracket rbracket ;;
          searchKeys_loop fuel' data keys (i + (arraySkip - 1) + 1) level keyLevel
        else searchKeys_loop fuel' data keys (i + 1) level keyLevel
  end.

Definition searchKeys (fuel : nat) (data : bytes) (keys : list bytes) : exec Z :=
  searchKeys_loop fuel data keys 0 0 0.

(** ** Value classification *)

Definition trueLiteral : bytes := bs "true".
Definition falseLiteral : bytes := bs "false".
Definition nullLiteral : bytes := bs "null".

Definition GetValue (data : bytes) : exec extraction :=
  if len data =? 0 then Done (None, Unknown, -1, Some UnknownValueTypeError)
  else
    c <- index data 0 ;;
    if Byte.eqb c quote then
      tail <- slice_from data 1 ;;
      let strEndQuoteOffMinus1 := stringEnd tail in
      if strEndQuoteOffMinus1 =? -1
      then Done (None, Unknown, -1, Some MalformedStringError)
      else
        value <- slice_between data 1 strEndQuoteOffMinus1 ;;
        Done (Some value, String, strEndQuoteOffMinus1 + 1, None)
    else if Byte.eqb c lbracket then
      blockLen <- blockEnd data lbracket rbracket ;;
      if blockLen =? -1
      then Done (None, Unknown, -1, Some MalformedArrayError)
      else
        value <- slice_to data blockLen ;;
        Done (Some value, Array, blockLen, None)
    else if Byte.eqb c lbrace then
      blockLen <- blockEnd data lbrace rbrace ;;
      if blockLen =? -1
      then Done (None, Unknown, -1, Some MalformedObjectError)
      else
        value <- slice_to data blockLen ;;
        Done (Some value, Object, blockLen, None)
    else if is_literal_start c then
      let tokenLen := tokenEnd data in
      if tokenLen =? -1
      then Done (None, Unknown, -1, Some MalformedLiteralError)
      else
        value <- slice_to data tokenLen ;;
        if bytes_eqb value nullLiteral
        then Done (None, Null, tokenLen, None)
        else if bytes_eqb value trueLiteral || bytes_eqb value falseLiteral
        then Done (Some value, Boolean, tokenLen, None)
        else Done (None, Unknown, -1, Some UnknownValueTypeError)
    else if is_number_start c then
      let tokenLen := tokenEnd data in
      if tokenLen =? -1
      then Done (None, Unknown, -1, Some MalformedNumberError)
      else
        value <- slice_to data tokenLen ;;
        Done (Some value, Number, tokenLen, None)
    else Done (None, Unknown, -1, Some (errors_New "Unknown value type")).

(** ** Path resolution *)

(** [fuel] is the budget of the key-path search; with no keys it is unused
    and [offset] keeps its zero value. *)
Definition Get (fuel : nat) (data : bytes) (keys : list bytes) : exec extraction :=
  offset <- (if 0 <? len keys then searchKeys fuel data keys else Done 0) ;;
  if (0 <? len keys) && (offset =? -1)
  then Done (None, NotExist, -1, Some KeyPathNotFoundError)
  else
    tail <- slice_from data offset ;;
    let skipToToken := nextToken tail in
    if skipToToken =? -1
    then Done (None, Unknown, -1, Some (errors_New "Malformed JSON error"))
    else
      let offset := offset + skipToToken in
      tail <- slice_from data offset ;;
      r <- GetValue tail ;;
      let '(value, dataType, valueOffset, err) := r in
      match err with
      | Some e => Done (None, Unknown, -1, Some e)
      | None => Done (value, dataType, offset + valueOffset, None)
      end.

(** ** Array iteration *)

(** The arguments of one call of the visitor [cb]. *)
Definition visit : Type := slice * ValueType * Z * option error.

(** The element loop of [ArrayEach]; [visits] are the calls of [cb] made so
    far, oldest first.  A [break] leaves the loop for the final [return nil]. *)
Fixpoint ArrayEach_loop (fuel : nat) (arrayValue : bytes)
  (arrayBeginOffset endOffsetInArray offsetInArray : Z) (visits : list visit)
  : exec (list visit * option error) :=
  match fuel with
  | O => OutOfFuel
  | S fuel' =>
      if negb (offsetInArray <? endOffsetInArray) then Done (visits, None)
      else
        tail <- slice_from arrayValue offsetInArray ;;
        r <- GetValue tail ;;
        let '(elementValue, elementType, elementOffset, err) := r in
        let offsetInArray := offsetInArray + elementOffset in
        if ValueType_eqb elementType NotExist then Done (visits, None)
        else
          let visits :=
            visits ++ [(elementValue, elementType, arrayBeginOffset + offsetInArray, err)] in
          match err with
          | Some _ => Done (visits, None)
          | None =>
              tail <- slice_from arrayValue offsetInArray ;;
              let skipToNextValue := nextArrayElement tail in
              if skipToNextValue =? -1 then Done (visits, Some MalformedArrayError)
              else ArrayEach_loop fuel' arrayValue arrayBeginOffset endOffsetInArray
                     (offsetInArray + skipToNextValue) visits
          end
  end.

(** [ArrayEach] returns its error; the model returns with it the calls of
    the visitor in the order they were made. *)
Definition ArrayEach (fuel : nat) (data : bytes) (keys : list bytes)
  : exec (list visit * option error) :=
  r <- Get fuel data keys ;;
  let '(arrayValue, dataType, arrayOffset, err) := r in
  match err with
  | Some e => Done ([], Some e)
  | None =>
      if negb (ValueType_eqb dataType Array) then Done ([], Some ExpectedArrayError)
      else
        let arrayBeginOffset := arrayOffset - len (contents arrayValue) in
        let offsetInArray := 1 in
        tail <- slice_from (contents arrayValue) offsetInArray ;;
        let skipToFirstValue := nextToken tail in
        if skipToFirstValue =? -1 then Done ([], Some MalformedArrayError)
        else
          let offsetInArray := offsetInArray + skipToFirstValue in
          let endOffsetInArray := len (contents arrayValue) - 1 in
          ArrayEach_loop fuel (contents arrayValue) arrayBeginOffset
            endOffsetInArray offsetInArray []
  end.


(** ** The vocabulary of the specification *)

(** The specification's escape rule: walking backwards from index [i], the
    number of consecutive backslash bytes met before any other byte. *)
Fixpoint backslashes_before (data : bytes) (i : nat) : nat :=
  match i with
  | O => O
  | S j =>
      if Byte.eqb (nth j data x00) backslash
      then S (backslashes_before data j)
      else O
  end.

(** A quote at index [i] that terminates the string: an even count. *)
Definition unescaped_quote_at (data : bytes) (i : nat) : Prop :=
  nth_error data i = Some quote /\ Nat.even (backslashes_before data i) = true.

(** Every quote of [data] at an index in [[lo, hi)] is escaped: an odd count. *)
Definition quotes_escaped_between (data : bytes) (lo hi : nat) : Prop :=
  forall k : nat, (lo <= k < hi)%nat -> nth_error data k = Some quote ->
    Nat.odd (backslashes_before data k) = true.

(** [i] is the index of the first byte of [data] that ends a token. *)
Definition first_terminator_at (data : bytes) (i : nat) : Prop :=
  (exists c : byte, nth_error data i = Some c /\ is_token_terminator c = true) /\
  forall k : nat, (k < i)%nat -> is_token_terminator (nth k data x00) = false.

(** A JSON lexer, reading forwards: outside a string, inside one, or
    inside one just after a backslash that escapes the next byte. *)
Inductive lexer : Type :=
| Outside
| InString
| Escaped.

(** One byte of a forward scan that keeps a count beside the lexer state;
    only bytes outside strings, and not the quote that opens one, are
    counted. *)
Definition scan_step (count : Z -> byte -> Z) (s : lexer * Z) (x : byte) : lexer * Z :=
  match fst s with
  | Outside =>
      if Byte.eqb x quote then (InString, snd s) else (Outside, count (snd s) x)
  | InString =>
      if Byte.eqb x backslash then (Escaped, snd s)
      else if Byte.eqb x quote then (Outside, snd s)
      else (InString, snd s)
  | Escaped => (InString, snd s)
  end.

Definition scan (count : Z -> byte -> Z) (l : bytes) : lexer * Z :=
  fold_left (scan_step count) l (Outside, 0).

(** Nesting of a block: up at an opening symbol, down at a closing one. *)
Definition block_count (openSym closeSym : byte) (level : Z) (x : byte) : Z :=
  if Byte.eqb x openSym then level + 1
  else if Byte.eqb x closeSym then level - 1
  else level.

(** The byte at index [r - 1] closes the value that starts the buffer: it
    is a closing symbol outside every string, met at nesting one. *)
Definition closes_value (openSym closeSym : byte) (data : bytes) (r : nat) : Prop :=
  exists (n : nat) (x : byte),
    r = S n /\ nth_error data n = Some x /\
    scan (block_count openSym closeSym) (firstn n data) = (Outside, 1) /\
    Byte.eqb x quote = false /\ Byte.eqb x openSym = false /\
    Byte.eqb x closeSym = true.

(** [r] is one past the bracket or brace that closes the value: the first
    index that closes it. *)
Definition first_close (openSym closeSym : byte) (data : bytes) (r : nat) : Prop :=
  closes_value openSym closeSym data r /\
  forall j : nat, (j < r)%nat -> ~ closes_value openSym closeSym data j.



(** Where an offset returned with a value of type [dataType] stands in
    [data]: one past the quote that closes the string (the first unescaped
    quote after the opening one), one past the bracket or brace that closes
    the array or object (the first closing symbol outside every string that
    brings the nesting back to zero), or on the first token terminator,
    which is not consumed. *)
Definition offset_after_terminator (data : bytes) (dataType : ValueType) (offset : Z)
  : Prop :=
  match dataType with
  | String =>
      index data (offset - 1) = Done quote /\
      exists k : nat, offset = Z.of_nat k + 2 /\
        unescaped_quote_at (tl data) k /\ quotes_escaped_between (tl data) 0 k
  | Array =>
      index data (offset - 1) = Done rbracket /\
      exists r : nat, offset = Z.of_nat r /\ first_close lbracket rbracket data r
  | Object =>
      index data (offset - 1) = Done rbrace /\
      exists r : nat, offset = Z.of_nat r /\ first_close lbrace rbrace data r
  | Number | Boolean | Null =>
      exists k : nat, offset = Z.of_nat k /\ first_terminator_at data k
  | NotExist | Unknown => False
  end.

(** The generic error [Get] builds when nothing but whitespace is left. *)
Definition genericMalformedJson : error := errors_New "Malformed JSON error".

(** The error kinds the specification lists. *)
Definition taxonomy : list error :=
  [KeyPathNotFoundError; UnknownValueTypeError; MalformedStringError;
   MalformedArrayError; MalformedObjectError; MalformedNumberError;
   MalformedLiteralError; ExpectedArrayError].

(** ** The remaining functions of the package *)

(** [nextArrayItem], a second copy of the whitespace skip. *)
Fixpoint nextArrayItem_range (i : Z) (data : bytes) : Z :=
  match data with
  | [] => -1
  | c :: rest => if is_whitespace c then nextArrayItem_range (i + 1) rest else i
  end.

Definition nextArrayItem (data : bytes) : Z := nextArrayItem_range 0 data.

(** [unsafeBytesToString] views the same bytes as a string. *)
Definition unsafeBytesToString (data : bytes) : bytes := data.

(** [bytes.IndexByte] *)
Fixpoint IndexByte_range (i : Z) (b : bytes) (c : byte) : Z :=
  match b with
  | [] => -1
  | x :: rest => if Byte.eqb x c then i else IndexByte_range (i + 1) rest c
  end.

Definition IndexByte (b : bytes) (c : byte) : Z := IndexByte_range 0 b c.

(** [fmt.Errorf(text + "%s", string(v))]: an error made on the spot. *)
Definition fmt_Errorf (text : string) (v : slice) : error :=
  errors_New (text ++ string_of_list_byte (contents v)).

Definition GetUnsafeString (fuel : nat) (data : bytes) (keys : list bytes)
  : exec (bytes * option error) :=
  r <- Get fuel data keys ;;
  let '(v, _, _, e) := r in
  match e with
  | Some e => Done ([], Some e)
  | None => Done (unsafeBytesToString (contents v), None)
  end.

Definition GetBoolean (fuel : nat) (data : bytes) (keys : list bytes)
  : exec (bool * option error) :=
  r <- Get fuel data keys ;;
  let '(v, t, _, e) := r in
  match e with
  | Some e => Done (false, Some e)
  | None =>
      if negb (ValueType_eqb t Boolean)
      then Done (false, Some (fmt_Errorf "Value is not a boolean: " v))
      else
        c <- index (contents v) 0 ;;
        if Byte.eqb c "t"%byte then Done (true, None) else Done (false, None)
  end.

Section StandardParsers.

(** The parsers of Go's [strconv] package are taken as they come. *)
Variable float64 : Type.
Variable zero64 : float64.
Variable strconv_Unquote : bytes -> bytes * option error.
Variable strconv_ParseFloat : bytes -> Z -> float64 * option error.
Variable strconv_ParseInt : bytes -> Z -> Z -> Z * option error.

Definition GetString (fuel : nat) (data : bytes) (keys : list bytes)
  : exec (bytes * option error) :=
  r <- Get fuel data keys ;;
  let '(v, t, _, e) := r in
  match e with
  | Some e => Done ([], Some e)
  | None =>
      if negb (ValueType_eqb t String)
      then Done ([], Some (fmt_Errorf "Value is not a number: " v))
      else if IndexByte (contents v) backslash =? -1
      then Done (contents v, None)
      else Done (strconv_Unquote (quote :: unsafeBytesToString (contents v) ++ [quote]))
  end.

Definition GetFloat (fuel : nat) (data : bytes) (keys : list bytes)
  : exec (float64 * option error) :=
  r <- Get fuel data keys ;;
  let '(v, t, _, e) := r in
  match e with
  | Some e => Done (zero64, Some e)
  | None =>
      if negb (ValueType_eqb t Number)
      then Done (zero64, Some (fmt_Errorf "Value is not a number: " v))
      else Done (strconv_ParseFloat (unsafeBytesToString (contents v)) 64)
  end.

Definition GetInt (fuel : nat) (data : bytes) (keys : list bytes)
  : exec (Z * option error) :=
  r <- Get fuel data keys ;;
  let '(v, t, _, e) := r in
  match e with
  | Some e => Done (0, Some e)
  | None =>
      if negb (ValueType_eqb t Number)
      then Done (0, Some (fmt_Errorf "Value is not a number: " v))
      else Done (strconv_ParseInt (unsafeBytesToString (contents v)) 10 64)
  end.

End StandardParsers.

(** ** More vocabulary *)

(** [i] is the index of the first byte of [data] that is not whitespace. *)
Definition first_token_at (data : bytes) (i : nat) : Prop :=
  (exists c : byte, nth_error data i = Some c /\ is_whitespace c = false) /\
  forall k : nat, (k < i)%nat -> is_whitespace (nth k data x00) = true.

(** Opening symbols minus closing symbols among the bytes of [l], an
    opening symbol being tested first as in the [switch] of [blockEnd]. *)
Fixpoint nesting (openSym closeSym : byte) (l : bytes) : Z :=
  match l with
  | [] => 0
  | x :: l' =>
      (if Byte.eqb x openSym then 1 else if Byte.eqb x closeSym then -1 else 0)
      + nesting openSym closeSym l'
  end.

(** The byte at index [r - 1] is a closing symbol that brings the nesting
    of [data[:r]] back to zero. *)
Definition closes_block (openSym closeSym : byte) (data : bytes) (r : nat) : Prop :=
  exists (n : nat) (x : byte),
    r = S n /\ nth_error data n = Some x /\
    Byte.eqb x openSym = false /\ Byte.eqb x closeSym = true /\
    nesting openSym closeSym (firstn r data) = 0.

(** Every opening bracket of [data], wherever it stands, starts a block
    that [blockEnd] can close. *)
Definition arrays_closed (data : bytes) : bool :=
  forallb
    (fun n : nat =>
       match nth_error data n with
       | Some c =>
           if Byte.eqb c lbracket
           then match blockEnd (skipn n data) lbracket rbracket with
                | Done r => negb (r =? -1)
                | _ => false
                end
           else true
       | None => true
       end)
    (seq 0 (List.length data)).

(** A text that can stand between two quotes as it is. *)
Definition plain_text (s : bytes) : bool :=
  forallb (fun c : byte => negb (Byte.eqb c quote) && negb (Byte.eqb c backslash)) s.

(** What [Get] returns for [ws ++ data] given what it returns for [data]:
    a successful offset moves by the length of [ws]. *)
Definition shift_offset (n : Z) (r : exec extraction) : exec extraction :=
  match r with
  | Done (v, t, off, None) => Done (v, t, off + n, None)
  | other => other
  end.

(** The value types [GetValue] gives to a value it extracted. *)
Definition is_extracted_type (t : ValueType) : bool :=
  match t with
  | String | Number | Object | Array | Boolean | Null => true
  | NotExist | Unknown => false
  end.

(** The slice [GetValue] returns with type [t] and offset [off]: the text
    between the quotes of a string, nil for null, and the bytes up to the
    offset otherwise. *)
Definition value_slice_of (data : bytes) (t : ValueType) (off : Z) : slice :=
  match t with
  | String => Some (firstn (Z.to_nat (off - 2)) (tl data))
  | Null => None
  | _ => Some (firstn (Z.to_nat off) data)
  end.

(** What an error returned by [GetValue] says about the buffer. *)
Definition error_cause (data : bytes) (e : error) : Prop :=
  match e with
  | UnknownValueTypeError =>
      data = [] \/
      exists (c : byte) (rest : bytes) (k : nat),
        data = c :: rest /\ is_literal_start c = true /\ first_terminator_at data k /\
        firstn k data <> nullLiteral /\ firstn k data <> trueLiteral /\
        firstn k data <> falseLiteral
  | MalformedStringError =>
      exists rest : bytes,
        data = quote :: rest /\ forall hi : nat, quotes_escaped_between rest 0 hi
  | MalformedArrayError =>
      exists rest : bytes,
        data = lbracket :: rest /\ blockEnd data lbracket rbracket = Done (-1)
  | MalformedObjectError =>
      exists rest : bytes,
        data = lbrace :: rest /\ blockEnd data lbrace rbrace = Done (-1)
  | MalformedNumberError =>
      exists (c : byte) (rest : bytes),
        data = c :: rest /\ is_number_start c = true /\
        forall x : byte, In x data -> is_token_terminator x = false
  | MalformedLiteralError =>
      exists (c : byte) (rest : bytes),
        data = c :: rest /\ is_literal_start c = true /\
        forall x : byte, In x data -> is_token_terminator x = false
  | errors_New text =>
      text = "Unknown value type"%string /\
      exists (c : byte) (rest : bytes),
        data = c :: rest /\ Byte.eqb c quote = false /\ Byte.eqb c lbracket = false /\
        Byte.eqb c lbrace = false /\ is_literal_start c = false /\
        is_number_start c = false
  | KeyPathNotFoundError | MalformedJsonError | ExpectedArrayError => False
  end.

(** A call of the visitor for an element that was extracted. *)
Definition visit_succeeded (x : visit) : Prop :=
  let '(v, t, off, err) := x in err = None /\ is_extracted_type t = true.

(** * Properties *)

(** ** Bytes and slices *)

Lemma bytes_eqb_eq (a b : bytes) : bytes_eqb a b = true <-> a = b.
Proof.
  revert b; induction a as [|x a IH]; intros [|y b]; simpl; split;
    try discriminate; try reflexivity.
  - intros H; apply andb_true_iff in H as [Hx Hab].
    apply Byte.byte_dec_bl in Hx; apply IH in Hab; congruence.
  - intros H; injection H as -> ->.
    apply andb_true_iff; split; [now apply Byte.byte_dec_lb | now apply IH].
Qed.

Lemma bytes_eqb_neq (a b : bytes) : a <> b -> bytes_eqb a b = false.
Proof.
  intros H; destruct (bytes_eqb a b) eqn:E; [|reflexivity].
  apply bytes_eqb_eq in E; contradiction.
Qed.

Lemma skipn_cons_nth (A : Type) (i : nat) (d : list A) (c : A) (rest : list A) :
  skipn i d = c :: rest -> nth_error d i = Some c /\ skipn (S i) d = rest.
Proof.
  revert d; induction i as [|i IH]; intros [|x d] H; simpl in *;
    try discriminate.
  - injection H as -> ->; auto.
  - apply IH in H; exact H.
Qed.

Lemma skipn_nil_length (A : Type) (i : nat) (d : list A) :
  skipn i d = [] -> (List.length d <= i)%nat.
Proof.
  revert d; induction i as [|i IH]; intros [|x d] H; simpl in *;
    try discriminate; try lia.
  apply IH in H; lia.
Qed.

Lemma nth_error_nth_byte (d : bytes) (i : nat) (c : byte) :
  nth_error d i = Some c -> nth i d x00 = c.
Proof. intros H; now apply nth_error_nth. Qed.

Lemma index_nth_error (A : Type) (d : list A) (i : nat) :
  index d (Z.of_nat i) = match nth_error d i with Some c => Done c | None => Panic end.
Proof.
  unfold index. destruct (Z.ltb_spec (Z.of_nat i) 0) as [E|E]; [lia|].
  now rewrite Nat2Z.id.
Qed.

(** ** [tokenEnd], [nextToken] and [nextArrayElement] *)

Lemma tokenEnd_range_found (data : bytes) (i : Z) :
  tokenEnd_range i data <> -1 -> 0 <= i ->
  exists k : nat, tokenEnd_range i data = i + Z.of_nat k /\ first_terminator_at data k.
Proof.
  revert i; induction data as [|c rest IH]; simpl; intros i H Hi.
  - contradiction.
  - destruct (is_token_terminator c) eqn:Ec.
    + exists O; split; [lia|]. split; [exists c; auto | intros k Hk; lia].
    + destruct (IH (i + 1) H ltac:(lia)) as (k & Hr & (c' & Hc' & Ht) & Hbefore).
      exists (S k); split; [lia|]. split; [exists c'; auto|].
      intros [|j] Hj; simpl; [exact Ec | apply Hbefore; lia].
Qed.

Lemma tokenEnd_range_absent (data : bytes) (i : Z) :
  tokenEnd_range i data = -1 -> 0 <= i ->
  forall c : byte, In c data -> is_token_terminator c = false.
Proof.
  revert i; induction data as [|c rest IH]; simpl; intros i H Hi x Hx.
  - contradiction.
  - destruct (is_token_terminator c) eqn:Ec; [lia|].
    destruct Hx as [<-|Hx]; [exact Ec | eapply IH; eauto; lia].
Qed.

Lemma tokenEnd_found (data : bytes) :
  tokenEnd data <> -1 ->
  exists k : nat, tokenEnd data = Z.of_nat k /\ first_terminator_at data k.
Proof.
  intros H; destruct (tokenEnd_range_found data 0 H ltac:(lia)) as (k & Hk & Hf).
  exists k; split; [exact Hk | exact Hf].
Qed.

Lemma nextToken_range_whitespace (data : bytes) (i : Z) :
  forallb is_whitespace data = true -> nextToken_range i data = -1.
Proof.
  revert i; induction data as [|c rest IH]; simpl; intros i H; [reflexivity|].
  apply andb_true_iff in H as [Hc Hrest]; rewrite Hc; now apply IH.
Qed.

Lemma nextArrayElement_range_no_comma (ws : bytes) (c : byte) (rest : bytes) (i : Z) :
  forallb is_whitespace ws = true -> is_whitespace c = false -> c <> comma ->
  nextArrayElement_range i false (ws ++ c :: rest) = -1.
Proof.
  revert i; induction ws as [|w ws IH]; simpl; intros i Hws Hc Hcomma.
  - rewrite Hc. destruct (Byte.eqb c comma) eqn:E; [|reflexivity].
    apply Byte.byte_dec_bl in E; contradiction.
  - apply andb_true_iff in Hws as [Hw Hws]; rewrite Hw; now apply IH.
Qed.

Lemma nextArrayElement_range_second_comma (ws : bytes) (rest : bytes) (i : Z) :
  forallb is_whitespace ws = true ->
  nextArrayElement_range i true (ws ++ comma :: rest) = -1.
Proof.
  revert i; induction ws as [|w ws IH]; simpl; intros i Hws; [reflexivity|].
  apply andb_true_iff in Hws as [Hw Hws]; rewrite Hw; now apply IH.
Qed.

Lemma nextArrayElement_range_double_comma (ws1 ws2 rest : bytes) (i : Z) :
  forallb is_whitespace ws1 = true -> forallb is_whitespace ws2 = true ->
  nextArrayElement_range i false (ws1 ++ comma :: ws2 ++ comma :: rest) = -1.
Proof.
  revert i; induction ws1 as [|w ws IH]; simpl; intros i H1 H2.
  - now apply nextArrayElement_range_second_comma.
  - apply andb_true_iff in H1 as [Hw H1]; rewrite Hw; now apply IH.
Qed.

(** ** [stringEnd] *)

(** The backward walk of the source computes the parity of the count. *)
Lemma backslashes_even_parity (data : bytes) (k : nat) :
  backslashes_even data k = Nat.even (backslashes_before data k).
Proof.
  enough (H : backslashes_even data k = Nat.even (backslashes_before data k) /\
              backslashes_even data (S k) = Nat.even (backslashes_before data (S k)))
    by apply H.
  induction k as [|k [IHk IHSk]].
  - split; [reflexivity|]. simpl.
    destruct (Byte.eqb (nth 0 data x00) backslash); reflexivity.
  - split; [exact IHSk|].
    change (backslashes_even data (S (S k))) with
      (if negb (Byte.eqb (nth (S k) data x00) backslash) then true
       else if negb (Byte.eqb (nth k data x00) backslash) then false
            else backslashes_even data k).
    change (backslashes_before data (S (S k))) with
      (if Byte.eqb (nth (S k) data x00) backslash
       then S (if Byte.eqb (nth k data x00) backslash
               then S (backslashes_before data k) else O)
       else O).
    destruct (Byte.eqb (nth (S k) data x00) backslash); simpl; [|reflexivity].
    destruct (Byte.eqb (nth k data x00) backslash); simpl; [exact IHk | reflexivity].
Qed.

Lemma odd_of_not_even (n : nat) : Nat.even n = false -> Nat.odd n = true.
Proof. intros H; unfold Nat.odd; now rewrite H. Qed.

Lemma stringEnd_range_spec (rest data : bytes) (i : nat) :
  skipn i data = rest ->
  (exists k : nat, (i <= k)%nat /\ stringEnd_range data i rest = Z.of_nat k + 1 /\
     unescaped_quote_at data k /\ quotes_escaped_between data i k)
  \/ (stringEnd_range data i rest = -1 /\
      forall hi : nat, quotes_escaped_between data i hi).
Proof.
  revert i; induction rest as [|c rest IH]; intros i Hskip; simpl.
  - right; split; [reflexivity|]. intros hi k Hk Hq.
    apply skipn_nil_length in Hskip.
    assert (nth_error data k = None) by (apply nth_error_None; lia). congruence.
  - apply skipn_cons_nth in Hskip as [Hi Hskip].
    assert (Hnext :
      (Byte.eqb c quote = true -> Nat.odd (backslashes_before data i) = true) ->
      (exists k : nat, (i <= k)%nat /\ stringEnd_range data (S i) rest = Z.of_nat k + 1 /\
         unescaped_quote_at data k /\ quotes_escaped_between data i k)
      \/ (stringEnd_range data (S i) rest = -1 /\
          forall hi : nat, quotes_escaped_between data i hi)).
    { intros Hodd.
      assert (Hhere : nth_error data i = Some quote ->
                      Nat.odd (backslashes_before data i) = true).
      { intros Hq. apply Hodd. rewrite Hi in Hq. injection Hq as ->. reflexivity. }
      destruct (IH (S i) Hskip) as [(k & Hle & Hr & Hu & Hesc) | (Hr & Hesc)].
      - left; exists k; repeat split; try lia; try apply Hu; try exact Hr.
        intros j Hj Hq. destruct (Nat.eq_dec j i) as [->|Hne]; [auto|].
        apply Hesc; [lia | exact Hq].
      - right; split; [exact Hr|]. intros hi j Hj Hq.
        destruct (Nat.eq_dec j i) as [->|Hne]; [auto|].
        apply (Hesc hi); [lia | exact Hq]. }
    destruct (Byte.eqb c quote) eqn:Ec.
    + rewrite backslashes_even_parity.
      destruct (Nat.even (backslashes_before data i)) eqn:Eeven.
      * left; exists i; repeat split; try lia; try exact Eeven.
        -- apply Byte.byte_dec_bl in Ec; now subst c.
        -- intros j Hj; lia.
      * apply Hnext; intros _; now apply odd_of_not_even.
    + apply Hnext; discriminate.
Qed.

Lemma stringEnd_spec (data : bytes) :
  (exists k : nat, stringEnd data = Z.of_nat k + 1 /\
     unescaped_quote_at data k /\ quotes_escaped_between data 0 k)
  \/ (stringEnd data = -1 /\ forall hi : nat, quotes_escaped_between data 0 hi).
Proof.
  destruct (stringEnd_range_spec data data 0 eq_refl)
    as [(k & _ & Hr & Hu & Hesc) | H]; [left; exists k; auto | right; exact H].
Qed.

Lemma stringEnd_found (data : bytes) :
  stringEnd data <> -1 ->
  exists k : nat, stringEnd data = Z.of_nat k + 1 /\
    unescaped_quote_at data k /\ quotes_escaped_between data 0 k.
Proof.
  intros H; destruct (stringEnd_spec data) as [Hk | [Habs _]];
    [exact Hk | contradiction].
Qed.

Lemma stringEnd_bounds (data : bytes) :
  stringEnd data = -1 \/ 1 <= stringEnd data <= len data.
Proof.
  destruct (stringEnd_spec data) as [(k & Hr & [Hq _] & _) | [Habs _]];
    [right | left; exact Habs].
  assert (k < List.length data)%nat by (apply nth_error_Some; congruence).
  unfold len; lia.
Qed.

(** ** [blockEnd] *)

Lemma index_in_range (A : Type) (d : list A) (i : Z) :
  0 <= i < len d -> exists c : A, index d i = Done c.
Proof.
  intros [Hlo Hhi]. unfold index.
  destruct (Z.ltb_spec i 0) as [E|E]; [lia|].
  destruct (nth_error d (Z.to_nat i)) eqn:En; [eauto|].
  apply nth_error_None in En. unfold len in Hhi; lia.
Qed.

Lemma index_done_range (A : Type) (d : list A) (i : Z) (c : A) :
  index d i = Done c -> 0 <= i < len d /\ nth_error d (Z.to_nat i) = Some c.
Proof.
  unfold index. destruct (Z.ltb_spec i 0) as [E|E]; [discriminate|].
  destruct (nth_error d (Z.to_nat i)) eqn:En; [|discriminate].
  intros H; injection H as ->.
  assert (Z.to_nat i < List.length d)%nat by (apply nth_error_Some; congruence).
  unfold len; split; [lia | reflexivity].
Qed.

Lemma slice_from_done (d tail : bytes) (a : Z) :
  slice_from d a = Done tail ->
  0 <= a <= len d /\ tail = skipn (Z.to_nat a) d /\ len tail = len d - a.
Proof.
  unfold slice_from.
  destruct (Z.leb_spec 0 a) as [Ha|Ha]; simpl; [|discriminate].
  destruct (Z.leb_spec a (len d)) as [Hb|Hb]; [|discriminate].
  intros H; injection H as <-. unfold len in *.
  rewrite length_skipn. repeat split; lia.
Qed.

Lemma slice_from_in_range (d : bytes) (a : Z) :
  0 <= a <= len d -> slice_from d a = Done (skipn (Z.to_nat a) d).
Proof.
  intros [Ha Hb]. unfold slice_from.
  destruct (Z.leb_spec 0 a); [|lia]. destruct (Z.leb_spec a (len d)); [|lia].
  reflexivity.
Qed.

Lemma slice_to_in_range (d : bytes) (b : Z) :
  0 <= b <= len d -> slice_to d b = Done (firstn (Z.to_nat b) d).
Proof.
  intros [Ha Hb]. unfold slice_to.
  destruct (Z.leb_spec 0 b); [|lia]. destruct (Z.leb_spec b (len d)); [|lia].
  reflexivity.
Qed.

(** Whatever [blockEnd] returns besides [-1] is one past a closing symbol. *)
Lemma blockEnd_loop_result (fuel : nat) (data : bytes) (openSym closeSym : byte) :
  forall (i level r : Z), 0 <= i ->
    blockEnd_loop fuel data openSym closeSym i level = Done r ->
    r = -1 \/ (1 <= r <= len data /\ index data (r - 1) = Done closeSym).
Proof.
  induction fuel as [|fuel IH]; intros i level r Hi H; simpl in H; [discriminate|].
  destruct (Z.ltb_spec i (len data)) as [Hlt|Hge]; simpl in H;
    [|injection H as <-; now left].
  destruct (index data i) as [c| |] eqn:Ec; try discriminate.
  destruct (Byte.eqb c quote).
  { destruct (slice_from data (i + 1)) as [tail| |] eqn:Et; try discriminate.
    destruct (Z.eqb_spec (stringEnd tail) (-1)) as [Ese|Ese].
    - injection H as <-; now left.
    - destruct (stringEnd_bounds tail) as [Hb|Hb]; [contradiction|].
      apply IH in H; [exact H | lia]. }
  destruct (Byte.eqb c openSym); [apply IH in H; [exact H | lia]|].
  destruct (Byte.eqb c closeSym) eqn:Eclose; [|apply IH in H; [exact H | lia]].
  destruct (Z.eqb_spec (level - 1) 0); [|apply IH in H; [exact H | lia]].
  injection H as <-; right. apply Byte.byte_dec_bl in Eclose; subst c.
  split; [lia|]. now replace (i + 1 - 1) with i by lia.
Qed.

Lemma blockEnd_result (data : bytes) (openSym closeSym : byte) (r : Z) :
  blockEnd data openSym closeSym = Done r ->
  r = -1 \/ (1 <= r <= len data /\ index data (r - 1) = Done closeSym).
Proof. unfold blockEnd; apply blockEnd_loop_result; lia. Qed.

(** The budget [blockEnd] gives its loop is never used up, and the loop
    reads and slices within bounds: [blockEnd] always returns. *)
Lemma blockEnd_loop_returns (fuel : nat) (data : bytes) (openSym closeSym : byte) :
  forall (i level : Z), 0 <= i <= len data -> len data - i < Z.of_nat fuel ->
    exists r : Z, blockEnd_loop fuel data openSym closeSym i level = Done r.
Proof.
  induction fuel as [|fuel IH]; intros i level Hi Hfuel; [lia|]. simpl.
  destruct (Z.ltb_spec i (len data)) as [Hlt|Hge]; simpl; [|eauto].
  destruct (index_in_range _ data i ltac:(lia)) as [c ->].
  destruct (Byte.eqb c quote).
  { rewrite slice_from_in_range by lia.
    pose proof (slice_from_done data _ (i + 1) (slice_from_in_range data (i + 1) ltac:(lia)))
      as (_ & _ & Hlen).
    destruct (Z.eqb_spec (stringEnd (skipn (Z.to_nat (i + 1)) data)) (-1)); [eauto|].
    destruct (stringEnd_bounds (skipn (Z.to_nat (i + 1)) data)) as [Hb|Hb];
      [contradiction|].
    apply IH; lia. }
  destruct (Byte.eqb c openSym); [apply IH; lia|].
  destruct (Byte.eqb c closeSym); [|apply IH; lia].
  destruct (Z.eqb_spec (level - 1) 0); [eauto | apply IH; lia].
Qed.

Lemma blockEnd_returns (data : bytes) (openSym closeSym : byte) :
  exists r : Z, blockEnd data openSym closeSym = Done r.
Proof.
  unfold blockEnd; apply blockEnd_loop_returns; unfold len; lia.
Qed.

(** ** More budget never changes a result *)

Ltac same_branch H :=
  repeat match type of H with
         | match ?x with _ => _ end = _ => destruct x; try discriminate H
         end.

Lemma searchKeys_loop_more_fuel (fuel extra : nat) (data : bytes) (keys : list bytes) :
  forall (i level keyLevel r : Z),
    searchKeys_loop fuel data keys i level keyLevel = Done r ->
    searchKeys_loop (fuel + extra) data keys i level keyLevel = Done r.
Proof.
  induction fuel as [|fuel IH]; intros i level keyLevel r H; [discriminate|].
  simpl in H |- *. same_branch H; auto.
Qed.

Lemma searchKeys_loop_panic_more_fuel (fuel extra : nat) (data : bytes) (keys : list bytes) :
  forall (i level keyLevel : Z),
    searchKeys_loop fuel data keys i level keyLevel = Panic ->
    searchKeys_loop (fuel + extra) data keys i level keyLevel = Panic.
Proof.
  induction fuel as [|fuel IH]; intros i level keyLevel H; [discriminate|].
  simpl in H |- *. same_branch H; auto.
Qed.

Lemma Get_more_fuel (fuel extra : nat) (data : bytes) (keys : list bytes) (r : extraction) :
  Get fuel data keys = Done r -> Get (fuel + extra) data keys = Done r.
Proof.
  unfold Get, searchKeys. destruct (0 <? len keys); [|auto].
  destruct (searchKeys_loop fuel data keys 0 0 0) as [offset| |] eqn:E;
    try discriminate.
  now rewrite (searchKeys_loop_more_fuel _ extra _ _ _ _ _ _ E).
Qed.

Lemma ArrayEach_loop_more_fuel (fuel extra : nat) (arrayValue : bytes) (base finish : Z) :
  forall (offsetInArray : Z) (visits : list visit) (r : list visit * option error),
    ArrayEach_loop fuel arrayValue base finish offsetInArray visits = Done r ->
    ArrayEach_loop (fuel + extra) arrayValue base finish offsetInArray visits = Done r.
Proof.
  induction fuel as [|fuel IH]; intros offsetInArray visits r H; [discriminate|].
  simpl in H |- *. same_branch H; auto.
Qed.

Lemma ArrayEach_more_fuel (fuel extra : nat) (data : bytes) (keys : list bytes)
  (r : list visit * option error) :
  ArrayEach fuel data keys = Done r -> ArrayEach (fuel + extra) data keys = Done r.
Proof.
  unfold ArrayEach. destruct (Get fuel data keys) as [g| |] eqn:E; try discriminate.
  rewrite (Get_more_fuel _ extra _ _ _ E). destruct g as [[[v t] o] e].
  intros H. same_branch H; auto using ArrayEach_loop_more_fuel.
Qed.

(** ** Array iteration on concrete buffers *)

(** C1.  On the buffer [[1, 2, 3]] with no keys, [ArrayEach] calls the
    visitor three times, in order, with the slices 1, 2 and 3, each a
    [Number]; after the third call the separator search meets the closing
    bracket and [ArrayEach] returns [MalformedArrayError], not nil. *)
Theorem ArrayEach_three_numbers :
  forall fuel : nat,
    ArrayEach (3 + fuel) (bs "[1, 2, 3]") [] =
    Done ([(Some (bs "1"), Number, 2, None);
           (Some (bs "2"), Number, 5, None);
           (Some (bs "3"), Number, 8, None)],
          Some MalformedArrayError).
Proof.
  intros fuel. apply ArrayEach_more_fuel. vm_compute. reflexivity.
Qed.

(** C9.  [nextArrayElement] returns [-1] when a byte that is neither
    whitespace nor a comma comes before any comma, and when a second comma
    follows the first with only whitespace between; so on [[1,,2]]
    [ArrayEach] calls the visitor once, for the element 1, and returns
    [MalformedArrayError]. *)
Theorem nextArrayElement_rejects_and_double_comma :
  (forall (ws : bytes) (c : byte) (rest : bytes),
      forallb is_whitespace ws = true -> is_whitespace c = false -> c <> comma ->
      nextArrayElement (ws ++ c :: rest) = -1) /\
  (forall (ws1 ws2 rest : bytes),
      forallb is_whitespace ws1 = true -> forallb is_whitespace ws2 = true ->
      nextArrayElement (ws1 ++ comma :: ws2 ++ comma :: rest) = -1) /\
  (forall fuel : nat,
      ArrayEach (1 + fuel) (bs "[1,,2]") [] =
      Done ([(Some (bs "1"), Number, 2, None)], Some MalformedArrayError)).
Proof.
  split; [|split].
  - intros ws c rest Hws Hc Hcomma.
    now apply nextArrayElement_range_no_comma.
  - intros ws1 ws2 rest H1 H2.
    now apply nextArrayElement_range_double_comma.
  - intros fuel. apply ArrayEach_more_fuel. vm_compute. reflexivity.
Qed.

Lemma nextArrayElement_rejects_witness :
  nextArrayElement (bs " ]") = -1 /\ nextArrayElement (bs ", ,2]") = -1.
Proof.
  destruct nextArrayElement_rejects_and_double_comma as (Hfirst & Hsecond & _).
  split.
  - apply (Hfirst [space] rbracket []); [reflexivity | reflexivity | discriminate].
  - apply (Hsecond [] [space] (bs "2]")); reflexivity.
Defined.

(** ** Key-path search *)

Lemma searchKeys_loop_open_bracket_cycle (keys : list bytes) (fuel : nat) :
  searchKeys_loop fuel (bs " [") keys 0 0 0 = OutOfFuel /\
  searchKeys_loop fuel (bs " [") keys 1 0 0 = OutOfFuel.
Proof.
  induction fuel as [|fuel [IH0 IH1]]; [split; reflexivity|].
  split.
  - change (searchKeys_loop (S fuel) (bs " [") keys 0 0 0)
      with (searchKeys_loop fuel (bs " [") keys 1 0 0). exact IH1.
  - change (searchKeys_loop (S fuel) (bs " [") keys 1 0 0)
      with (searchKeys_loop fuel (bs " [") keys 0 0 0). exact IH0.
Qed.

(** C2.  [searchKeys] does not return on every buffer.  On a space followed
    by an opening bracket that is never closed, [blockEnd] returns [-1], the
    index moves back by one, and the loop alternates between the two bytes
    for ever: no budget is enough, for [searchKeys] and for [Get].  On the
    single byte [[] the index becomes [-1] and the next read panics. *)
Theorem searchKeys_unterminated_array_never_returns :
  forall (fuel : nat) (keys : list bytes),
    searchKeys fuel (bs " [") keys = OutOfFuel /\
    Get fuel (bs " [") (bs "a" :: keys) = OutOfFuel /\
    searchKeys (2 + fuel) (bs "[") keys = Panic.
Proof.
  intros fuel keys. split; [|split].
  - apply searchKeys_loop_open_bracket_cycle.
  - unfold Get, searchKeys.
    replace (0 <? len (bs "a" :: keys)) with true
      by (symmetry; apply Z.ltb_lt; unfold len; simpl List.length; lia).
    now rewrite (proj1 (searchKeys_loop_open_bracket_cycle _ fuel)).
  - apply searchKeys_loop_panic_more_fuel. reflexivity.
Qed.

(** ** Path resolution on concrete buffers *)

(** C8.  On the object with member a holding an object with member b of
    value 1, the path a, b resolves: [Get] returns the slice 1, the type
    [Number], the offset 11 and no error. *)
Theorem Get_nested_object_path :
  forall fuel : nat,
    Get (4 + fuel)
      (bs "{" ++ quoted "a" ++ bs ":{" ++ quoted "b" ++ bs ":1}}")
      [bs "a"; bs "b"] =
    Done (Some (bs "1"), Number, 11, None).
Proof.
  intros fuel. apply Get_more_fuel. vm_compute. reflexivity.
Qed.



Lemma Get_whitespace_then_number (fuel : nat) (c : byte) (rest : bytes) :
  is_token_terminator c = true ->
  Get fuel (bs "  42" ++ c :: rest) [] = Done (Some (bs "42"), Number, 4, None).
Proof.
  intros Hc. unfold Get.
  change (0 <? len (@nil bytes)) with false. cbv iota. rewrite andb_false_l.
  rewrite slice_from_in_range by (unfold len; simpl List.length; lia).
  change (nextToken (skipn (Z.to_nat 0) (bs "  42" ++ c :: rest))) with 2.
  change (2 =? -1) with false. cbv iota zeta.
  rewrite slice_from_in_range by (unfold len; simpl List.length; lia).
  change (skipn (Z.to_nat (0 + 2)) (bs "  42" ++ c :: rest))
    with (bs "42" ++ c :: rest).
  assert (Hv : GetValue (bs "42" ++ c :: rest) = Done (Some (bs "42"), Number, 2, None)).
  { unfold GetValue.
    destruct (Z.eqb_spec (len (bs "42" ++ c :: rest)) 0) as [E|_];
      [unfold len in E; simpl List.length in E; lia|].
    change (index (bs "42" ++ c :: rest) 0) with (Done "4"%byte).
    cbv iota.
    change (Byte.eqb "4" quote) with false.
    change (Byte.eqb "4" lbracket) with false.
    change (Byte.eqb "4" lbrace) with false.
    change (is_literal_start "4") with false.
    change (is_number_start "4") with true. cbv iota.
    assert (Ht : tokenEnd (bs "42" ++ c :: rest) = 2).
    { unfold tokenEnd. simpl. now rewrite Hc. }
    rewrite Ht. change (2 =? -1) with false. cbv iota zeta.
    rewrite slice_to_in_range by (unfold len; simpl List.length; lia).
    reflexivity. }
  rewrite Hv. reflexivity.
Qed.

(** C3, as the code has it.  On exactly the four bytes space, space, 4, 2
    the digits are followed by no token terminator, and [Get] with no keys
    returns a nil slice, the type [Unknown], the offset [-1] and
    [MalformedNumberError].  When a token terminator follows the digits,
    [Get] returns the slice 42, the type [Number], the offset 4 and no
    error. *)
Theorem Get_number_needs_terminator :
  forall fuel : nat,
    Get fuel (bs "  42") [] = Done (None, Unknown, -1, Some MalformedNumberError) /\
    forall (c : byte) (rest : bytes), is_token_terminator c = true ->
      Get fuel (bs "  42" ++ c :: rest) [] = Done (Some (bs "42"), Number, 4, None).
Proof.
  intros fuel; split.
  - reflexivity.
  - intros c rest Hc. now apply Get_whitespace_then_number.
Qed.

Lemma Get_number_needs_terminator_witness :
  Get 5 (bs "  42,") [] = Done (Some (bs "42"), Number, 4, None).
Proof.
  apply (proj2 (Get_number_needs_terminator 5) comma []); reflexivity.
Defined.

(** C3, as the specification states it, fails: the buffer of exactly the
    four bytes space, space, 4, 2 yields [MalformedNumberError], not the
    slice 42. *)
Lemma Get_unterminated_number_counterexample :
  Get 4 (bs "  42") [] = Done (None, Unknown, -1, Some MalformedNumberError) /\
  Get 4 (bs "  42") [] <> Done (Some (bs "42"), Number, 4, None).
Proof.
  split; [reflexivity | discriminate].
Qed.

(** C10.  With no keys, on a buffer that is empty or holds only whitespace,
    [Get] returns a nil slice, the type [Unknown], the offset [-1] and an
    error made on the spot, which is none of the error kinds of the
    taxonomy, and not the package variable [MalformedJsonError] either. *)
Theorem Get_whitespace_only_generic_error :
  forall (fuel : nat) (data : bytes),
    forallb is_whitespace data = true ->
    Get fuel data [] = Done (None, Unknown, -1, Some genericMalformedJson) /\
    ~ In genericMalformedJson taxonomy /\
    genericMalformedJson <> MalformedJsonError.
Proof.
  intros fuel data Hws. split; [|split].
  - unfold Get.
    change (0 <? len (@nil bytes)) with false. cbv iota. rewrite andb_false_l.
    rewrite slice_from_in_range by (unfold len; lia).
    change (skipn (Z.to_nat 0) data) with data.
    unfold nextToken. rewrite nextToken_range_whitespace by exact Hws.
    reflexivity.
  - unfold taxonomy, genericMalformedJson; simpl.
    intros H; repeat (destruct H as [H|H]; [discriminate H|]); exact H.
  - discriminate.
Qed.

Lemma Get_whitespace_only_witness :
  (Get 3 (bs "  " ++ [newline; tab; carriage]) [] =
     Done (None, Unknown, -1, Some genericMalformedJson) /\
   ~ In genericMalformedJson taxonomy /\
   genericMalformedJson <> MalformedJsonError) /\
  (Get 3 [] [] = Done (None, Unknown, -1, Some genericMalformedJson) /\
   ~ In genericMalformedJson taxonomy /\
   genericMalformedJson <> MalformedJsonError).
Proof.
  split.
  - apply (Get_whitespace_only_generic_error 3 (bs "  " ++ [newline; tab; carriage]));
      reflexivity.
  - apply (Get_whitespace_only_generic_error 3 []); reflexivity.
Defined.

(** ** The end of a string *)

Lemma even_odd_clash (n : nat) : Nat.even n = true -> Nat.odd n = true -> False.
Proof. unfold Nat.odd; intros ->; discriminate. Qed.

(** C4.  [stringEnd] returns one past the first quote preceded by an even
    number of consecutive backslashes, having skipped every quote preceded
    by an odd number, and [-1] when every quote of the buffer is escaped;
    with 0, 1, 2 and 3 backslashes before a quote it stops, skips, stops and
    skips. *)
Theorem stringEnd_first_unescaped_quote :
  (forall (data : bytes) (k : nat),
      unescaped_quote_at data k -> quotes_escaped_between data 0 k ->
      stringEnd data = Z.of_nat k + 1) /\
  (forall data : bytes,
      (forall k : nat, ~ unescaped_quote_at data k) -> stringEnd data = -1) /\
  (forall data : bytes,
      (exists k : nat, stringEnd data = Z.of_nat k + 1 /\
         unescaped_quote_at data k /\ quotes_escaped_between data 0 k)
      \/ (stringEnd data = -1 /\ forall hi : nat, quotes_escaped_between data 0 hi)) /\
  stringEnd (bs "a" ++ [quote] ++ bs "b" ++ [quote]) = 2 /\
  stringEnd (bs "a" ++ [backslash; quote] ++ bs "b" ++ [quote]) = 5 /\
  stringEnd (bs "a" ++ [backslash; backslash; quote] ++ bs "b" ++ [quote]) = 4 /\
  stringEnd (bs "a" ++ [backslash; backslash; backslash; quote] ++ bs "b" ++ [quote]) = 7 /\
  stringEnd (bs "a" ++ [backslash; quote]) = -1.
Proof.
  repeat split; try reflexivity.
  - intros data k [Hq Heven] Hskipped.
    destruct (stringEnd_spec data) as [(k' & Hr & [Hq' Heven'] & Hskipped') | [_ Hall]].
    + destruct (Nat.lt_trichotomy k k') as [Hlt | [-> | Hgt]]; [|exact Hr|].
      * exfalso; apply (even_odd_clash _ Heven). apply Hskipped'; [lia | exact Hq].
      * exfalso; apply (even_odd_clash _ Heven'). apply Hskipped; [lia | exact Hq'].
    + exfalso; apply (even_odd_clash _ Heven).
      apply (Hall (S k)); [lia | exact Hq].
  - intros data Hnone.
    destruct (stringEnd_spec data) as [(k & _ & Hu & _) | [Hr _]];
      [destruct (Hnone k Hu) | exact Hr].
  - apply stringEnd_spec.
Qed.

Lemma stringEnd_first_unescaped_quote_witness :
  stringEnd (bs "ab" ++ [backslash; quote; quote]) = 5.
Proof.
  apply (proj1 stringEnd_first_unescaped_quote (bs "ab" ++ [backslash; quote; quote]) 4%nat).
  - split; reflexivity.
  - intros k Hk Hq.
    do 4 (destruct k as [|k]; [first [discriminate Hq | reflexivity]|]). lia.
Defined.

(** ** Value classification *)

Lemma index_succ_tl (data : bytes) (k : nat) (c : byte) :
  nth_error (tl data) k = Some c -> index data (Z.of_nat k + 1) = Done c.
Proof.
  intros H. replace (Z.of_nat k + 1) with (Z.of_nat (S k)) by lia.
  rewrite index_nth_error. destruct data as [|x data]; simpl in *.
  - destruct k; discriminate.
  - now rewrite H.
Qed.

Lemma slice_from_one_tl (data tail : bytes) :
  slice_from data 1 = Done tail -> tail = tl data.
Proof.
  intros H. apply slice_from_done in H as (_ & -> & _).
  now destruct data.
Qed.


Lemma GetValue_literal_branch (c : byte) (rest : bytes) :
  is_literal_start c = true ->
  GetValue (c :: rest) =
  (if tokenEnd (c :: rest) =? -1
   then Done (None, Unknown, -1, Some MalformedLiteralError)
   else
     value <- slice_to (c :: rest) (tokenEnd (c :: rest)) ;;
     if bytes_eqb value nullLiteral
     then Done (None, Null, tokenEnd (c :: rest), None)
     else if bytes_eqb value trueLiteral || bytes_eqb value falseLiteral
     then Done (Some value, Boolean, tokenEnd (c :: rest), None)
     else Done (None, Unknown, -1, Some UnknownValueTypeError)).
Proof.
  intros H.
  assert (Hc : c = "t"%byte \/ c = "f"%byte \/ c = "n"%byte).
  { unfold is_literal_start in H.
    apply orb_true_iff in H as [H|H]; [apply orb_true_iff in H as [H|H]|];
      apply Byte.byte_dec_bl in H; auto. }
  unfold GetValue.
  destruct (Z.eqb_spec (len (c :: rest)) 0) as [E|_];
    [unfold len in E; simpl List.length in E; lia|].
  change (index (c :: rest) 0) with (Done c). cbv iota.
  destruct Hc as [-> | [-> | ->]]; reflexivity.
Qed.

(** C7.  On a buffer that starts with t, f or n: with no token terminator
    [GetValue] returns [MalformedLiteralError]; otherwise the token null
    gives the type [Null] with a nil slice, the tokens true and false give
    the type [Boolean] with the token as slice, and any other token gives
    [UnknownValueTypeError]. *)
Theorem GetValue_literal :
  forall (c : byte) (rest : bytes),
    is_literal_start c = true ->
    let data := c :: rest in
    (tokenEnd data = -1 ->
       GetValue data = Done (None, Unknown, -1, Some MalformedLiteralError)) /\
    (tokenEnd data <> -1 ->
       let token := firstn (Z.to_nat (tokenEnd data)) data in
       (token = bs "null" ->
          GetValue data = Done (None, Null, tokenEnd data, None)) /\
       (token = bs "true" \/ token = bs "false" ->
          GetValue data = Done (Some token, Boolean, tokenEnd data, None)) /\
       (token <> bs "null" -> token <> bs "true" -> token <> bs "false" ->
          GetValue data = Done (None, Unknown, -1, Some UnknownValueTypeError))).
Proof.
  intros c rest Hlit data. subst data.
  rewrite (GetValue_literal_branch c rest Hlit). split.
  - intros ->. reflexivity.
  - intros Ht token.
    destruct (Z.eqb_spec (tokenEnd (c :: rest)) (-1)) as [|_]; [contradiction|].
    destruct (tokenEnd_found _ Ht) as (k & Hk & (x & Hx & _) & _).
    assert (k < List.length (c :: rest))%nat by (apply nth_error_Some; congruence).
    rewrite slice_to_in_range by (unfold len; lia).
    fold token. split; [|split].
    + intros ->. reflexivity.
    + intros [-> | ->]; reflexivity.
    + intros Hnull Htrue Hfalse.
      unfold nullLiteral, trueLiteral, falseLiteral.
      now rewrite !bytes_eqb_neq.
Qed.

Lemma GetValue_literal_witness :
  GetValue (bs "tru") = Done (None, Unknown, -1, Some MalformedLiteralError) /\
  GetValue (bs "null,") = Done (None, Null, 4, None) /\
  GetValue (bs "false}") = Done (Some (bs "false"), Boolean, 5, None) /\
  GetValue (bs "nil ") = Done (None, Unknown, -1, Some UnknownValueTypeError).
Proof.
  split; [|split; [|split]].
  - apply (proj1 (GetValue_literal "t" (bs "ru") eq_refl)); reflexivity.
  - apply (proj2 (GetValue_literal "n" (bs "ull,") eq_refl)); [discriminate | reflexivity].
  - apply (proj2 (GetValue_literal "f" (bs "alse}") eq_refl));
      [discriminate | right; reflexivity].
  - apply (proj2 (GetValue_literal "n" (bs "il ") eq_refl)); discriminate.
Defined.

(** * Further properties of the scanner *)

(** ** Token ends, token starts and element separators *)

(** X1.  [tokenEnd] returns the index of the first token terminator of the
    buffer, and [-1] exactly when the buffer holds none. *)
Theorem tokenEnd_first_terminator :
  forall data : bytes,
    (tokenEnd data = -1 /\ forall c : byte, In c data -> is_token_terminator c = false)
    \/ (exists k : nat, tokenEnd data = Z.of_nat k /\ first_terminator_at data k).
Proof.
  intros data. destruct (Z.eq_dec (tokenEnd data) (-1)) as [E|E].
  - left; split; [exact E|]. apply (tokenEnd_range_absent data 0 E); lia.
  - right. now apply tokenEnd_found.
Qed.

Lemma nextToken_range_found (data : bytes) (i : Z) :
  nextToken_range i data <> -1 -> 0 <= i ->
  exists k : nat, nextToken_range i data = i + Z.of_nat k /\ first_token_at data k.
Proof.
  revert i; induction data as [|c rest IH]; simpl; intros i H Hi.
  - contradiction.
  - destruct (is_whitespace c) eqn:Ec.
    + destruct (IH (i + 1) H ltac:(lia)) as (k & Hr & (c' & Hc' & Ht) & Hbefore).
      exists (S k); split; [lia|]. split; [exists c'; auto|].
      intros [|j] Hj; simpl; [exact Ec | apply Hbefore; lia].
    + exists O; split; [lia|]. split; [exists c; auto | intros k Hk; lia].
Qed.

Lemma nextToken_range_absent (data : bytes) (i : Z) :
  nextToken_range i data = -1 -> 0 <= i -> forallb is_whitespace data = true.
Proof.
  revert i; induction data as [|c rest IH]; simpl; intros i H Hi; [reflexivity|].
  destruct (is_whitespace c); [simpl; apply (IH (i + 1)); [exact H | lia] | lia].
Qed.

Lemma nextToken_found (data : bytes) :
  nextToken data <> -1 ->
  exists k : nat, nextToken data = Z.of_nat k /\ first_token_at data k.
Proof.
  intros H; destruct (nextToken_range_found data 0 H ltac:(lia)) as (k & Hk & Hf).
  exists k; split; [exact Hk | exact Hf].
Qed.

Lemma nextArrayItem_range_nextToken (data : bytes) (i : Z) :
  nextArrayItem_range i data = nextToken_range i data.
Proof.
  revert i; induction data as [|c rest IH]; simpl; intros i; [reflexivity|].
  now rewrite IH.
Qed.

(** X2.  [nextToken] returns the index of the first byte that is not
    whitespace, and [-1] exactly when the buffer is empty or all whitespace;
    [nextArrayItem] computes the same index. *)
Theorem nextToken_first_non_whitespace :
  forall data : bytes,
    ((nextToken data = -1 /\ forallb is_whitespace data = true)
     \/ (exists k : nat, nextToken data = Z.of_nat k /\ first_token_at data k))
    /\ nextArrayItem data = nextToken data.
Proof.
  intros data. split; [|apply nextArrayItem_range_nextToken].
  destruct (Z.eq_dec (nextToken data) (-1)) as [E|E].
  - left; split; [exact E|]. apply (nextToken_range_absent data 0 E); lia.
  - right. now apply nextToken_found.
Qed.

Lemma nextArrayElement_range_after_comma (ws : bytes) (c : byte) (rest : bytes) (i : Z) :
  forallb is_whitespace ws = true -> is_whitespace c = false -> c <> comma ->
  nextArrayElement_range i true (ws ++ c :: rest) = i + len ws.
Proof.
  revert i; induction ws as [|w ws IH]; simpl; intros i Hws Hc Hcomma.
  - rewrite Hc. destruct (Byte.eqb c comma) eqn:E.
    + apply Byte.byte_dec_bl in E; contradiction.
    + unfold len; simpl; lia.
  - apply andb_true_iff in Hws as [Hw Hws]; rewrite Hw.
    rewrite IH by assumption. unfold len; simpl List.length; lia.
Qed.

Lemma nextArrayElement_range_accepts (ws1 ws2 : bytes) (c : byte) (rest : bytes) (i : Z) :
  forallb is_whitespace ws1 = true -> forallb is_whitespace ws2 = true ->
  is_whitespace c = false -> c <> comma ->
  nextArrayElement_range i false (ws1 ++ comma :: ws2 ++ c :: rest) =
  i + len ws1 + 1 + len ws2.
Proof.
  revert i; induction ws1 as [|w ws IH]; simpl; intros i H1 H2 Hc Hcomma.
  - rewrite nextArrayElement_range_after_comma by assumption.
    unfold len; simpl; lia.
  - apply andb_true_iff in H1 as [Hw H1]; rewrite Hw.
    rewrite IH by assumption. unfold len; simpl List.length; lia.
Qed.

Lemma nextArrayElement_range_true_shape (data : bytes) (i : Z) :
  nextArrayElement_range i true data <> -1 ->
  exists (ws : bytes) (c : byte) (rest : bytes),
    data = ws ++ c :: rest /\ forallb is_whitespace ws = true /\
    is_whitespace c = false /\ c <> comma.
Proof.
  revert i; induction data as [|x data IH]; simpl; intros i H; [contradiction|].
  destruct (is_whitespace x) eqn:Ex.
  - destruct (IH _ H) as (ws & c & rest & -> & Hws & Hc & Hcomma).
    exists (x :: ws), c, rest; simpl; rewrite Ex; auto.
  - destruct (Byte.eqb x comma) eqn:Ecomma; [contradiction|].
    exists [], x, data; repeat split; auto.
    intros ->; discriminate.
Qed.

Lemma nextArrayElement_range_false_shape (data : bytes) (i : Z) :
  nextArrayElement_range i false data <> -1 ->
  exists (ws1 ws2 : bytes) (c : byte) (rest : bytes),
    data = ws1 ++ comma :: ws2 ++ c :: rest /\
    forallb is_whitespace ws1 = true /\ forallb is_whitespace ws2 = true /\
    is_whitespace c = false /\ c <> comma.
Proof.
  revert i; induction data as [|x data IH]; simpl; intros i H; [contradiction|].
  destruct (is_whitespace x) eqn:Ex.
  - destruct (IH _ H) as (ws1 & ws2 & c & rest & -> & H1 & H2 & Hc & Hcomma).
    exists (x :: ws1), ws2, c, rest; simpl; rewrite Ex; auto.
  - destruct (Byte.eqb x comma) eqn:Ecomma; [|contradiction].
    apply Byte.byte_dec_bl in Ecomma; subst x.
    destruct (nextArrayElement_range_true_shape _ _ H)
      as (ws & c & rest & -> & Hws & Hc & Hcomma).
    exists [], ws, c, rest; auto.
Qed.

(** X3.  [nextArrayElement] succeeds exactly on whitespace, one comma,
    whitespace and then a byte that is neither; it returns the index of
    that byte. *)
Theorem nextArrayElement_one_comma :
  (forall (ws1 ws2 : bytes) (c : byte) (rest : bytes),
      forallb is_whitespace ws1 = true -> forallb is_whitespace ws2 = true ->
      is_whitespace c = false -> c <> comma ->
      nextArrayElement (ws1 ++ comma :: ws2 ++ c :: rest) = len ws1 + 1 + len ws2) /\
  (forall data : bytes,
      nextArrayElement data <> -1 ->
      exists (ws1 ws2 : bytes) (c : byte) (rest : bytes),
        data = ws1 ++ comma :: ws2 ++ c :: rest /\
        forallb is_whitespace ws1 = true /\ forallb is_whitespace ws2 = true /\
        is_whitespace c = false /\ c <> comma).
Proof.
  split.
  - intros ws1 ws2 c rest H1 H2 Hc Hcomma. unfold nextArrayElement.
    rewrite nextArrayElement_range_accepts by assumption. lia.
  - intros data H. now apply (nextArrayElement_range_false_shape data 0).
Qed.

Lemma nextArrayElement_one_comma_witness :
  nextArrayElement (bs " , 2]") = 3.
Proof.
  apply (proj1 nextArrayElement_one_comma [space] [space] "2"%byte [rbracket]);
    first [reflexivity | discriminate].
Defined.

(** ** Blocks *)

(** X4.  [blockEnd] returns on every buffer, without a panic, either [-1]
    or an index within the buffer that is one past a closing symbol. *)
Theorem blockEnd_returns_in_bounds :
  forall (data : bytes) (openSym closeSym : byte),
    exists r : Z,
      blockEnd data openSym closeSym = Done r /\
      (r = -1 \/ (1 <= r <= len data /\ index data (r - 1) = Done closeSym)).
Proof.
  intros data openSym closeSym.
  destruct (blockEnd_returns data openSym closeSym) as [r Hr].
  exists r; split; [exact Hr | now apply (blockEnd_result data openSym closeSym)].
Qed.

Lemma nesting_app (openSym closeSym : byte) (a b : bytes) :
  nesting openSym closeSym (a ++ b) =
  nesting openSym closeSym a + nesting openSym closeSym b.
Proof. induction a as [|x a IH]; simpl; [reflexivity | rewrite IH; lia]. Qed.

Lemma firstn_succ_nth (A : Type) (d : list A) (n : nat) (x : A) :
  nth_error d n = Some x -> firstn (S n) d = firstn n d ++ [x].
Proof.
  revert d; induction n as [|n IH]; intros [|y d] H; simpl in *; try discriminate.
  - now injection H as ->.
  - now rewrite (IH d H).
Qed.

Lemma forallb_nth_error (A : Type) (P : A -> bool) (d : list A) (n : nat) (x : A) :
  forallb P d = true -> nth_error d n = Some x -> P x = true.
Proof.
  intros Hall Hn. rewrite forallb_forall in Hall.
  apply Hall. eapply nth_error_In; eauto.
Qed.

Lemma blockEnd_loop_nesting (fuel : nat) (data : bytes) (openSym closeSym : byte) :
  forallb (fun x : byte => negb (Byte.eqb x quote)) data = true ->
  forall (n : nat) (level r : Z),
    blockEnd_loop fuel data openSym closeSym (Z.of_nat n) level = Done r ->
    level = nesting openSym closeSym (firstn n data) ->
    (forall j : nat, (j <= n)%nat -> ~ closes_block openSym closeSym data j) ->
    (exists m : nat, r = Z.of_nat m /\ closes_block openSym closeSym data m /\
       forall j : nat, (j < m)%nat -> ~ closes_block openSym closeSym data j)
    \/ (r = -1 /\ forall j : nat, ~ closes_block openSym closeSym data j).
Proof.
  intros Hq. induction fuel as [|fuel IH]; intros n level r H Hlevel Hnone;
    simpl in H; [discriminate|].
  destruct (Z.ltb_spec (Z.of_nat n) (len data)) as [Hlt|Hge]; simpl in H.
  2:{ injection H as <-. right; split; [reflexivity|].
      intros j (n' & x & -> & Hx & Hrest).
      destruct (Nat.le_gt_cases (S n') n) as [Hle|Hgt].
      - apply (Hnone (S n') Hle). exists n', x; auto.
      - assert (n' < List.length data)%nat by (apply nth_error_Some; congruence).
        unfold len in Hge; lia. }
  rewrite index_nth_error in H.
  destruct (nth_error data n) as [c|] eqn:Ec; [|discriminate].
  assert (Hcq : Byte.eqb c quote = false).
  { apply negb_true_iff. exact (forallb_nth_error _ _ _ _ _ Hq Ec). }
  rewrite Hcq in H.
  replace (Z.of_nat n + 1) with (Z.of_nat (S n)) in H by lia.
  assert (Hfirst := firstn_succ_nth _ _ _ _ Ec).
  assert (Hstep : forall level' : Z,
    level' = nesting openSym closeSym (firstn (S n) data) ->
    (level' = 0 -> Byte.eqb c openSym = false -> Byte.eqb c closeSym = true -> False) ->
    blockEnd_loop fuel data openSym closeSym (Z.of_nat (S n)) level' = Done r ->
    (exists m : nat, r = Z.of_nat m /\ closes_block openSym closeSym data m /\
       forall j : nat, (j < m)%nat -> ~ closes_block openSym closeSym data j)
    \/ (r = -1 /\ forall j : nat, ~ closes_block openSym closeSym data j)).
  { intros level' Hlevel' Hopen Hrec. apply (IH (S n) level' r Hrec Hlevel').
    intros j Hj Hclose. destruct (Nat.eq_dec j (S n)) as [->|Hne].
    - destruct Hclose as (n' & x & Hn' & Hx & Ho & Hc & Hz).
      injection Hn' as <-. rewrite Ec in Hx; injection Hx as <-.
      apply Hopen; congruence.
    - apply (Hnone j); [lia | exact Hclose]. }
  destruct (Byte.eqb c openSym) eqn:Eo.
  { apply (Hstep (level + 1)); [|discriminate | exact H].
    rewrite Hfirst, nesting_app; simpl. rewrite Eo. lia. }
  destruct (Byte.eqb c closeSym) eqn:Eclose.
  2:{ apply (Hstep level); [|discriminate | exact H].
      rewrite Hfirst, nesting_app; simpl. rewrite Eo, Eclose. lia. }
  assert (Hdown : level - 1 = nesting openSym closeSym (firstn (S n) data)).
  { rewrite Hfirst, nesting_app; simpl. rewrite Eo, Eclose. lia. }
  destruct (Z.eqb_spec (level - 1) 0) as [Hz|Hnz].
  - injection H as <-. left; exists (S n); split; [reflexivity|]. split.
    + exists n, c; repeat split; auto. now rewrite <- Hdown.
    + intros j Hj; apply Hnone; lia.
  - apply (Hstep (level - 1)); [exact Hdown | intros; contradiction | exact H].
Qed.

(** X5.  On a buffer without quotes, [blockEnd] returns the first index
    that is one past a closing symbol at which opening and closing symbols
    balance, and [-1] exactly when there is no such index. *)
Theorem blockEnd_first_balanced_close :
  forall (data : bytes) (openSym closeSym : byte),
    forallb (fun x : byte => negb (Byte.eqb x quote)) data = true ->
    (exists m : nat,
        blockEnd data openSym closeSym = Done (Z.of_nat m) /\
        closes_block openSym closeSym data m /\
        forall j : nat, (j < m)%nat -> ~ closes_block openSym closeSym data j)
    \/ (blockEnd data openSym closeSym = Done (-1) /\
        forall j : nat, ~ closes_block openSym closeSym data j).
Proof.
  intros data openSym closeSym Hq.
  destruct (blockEnd_returns data openSym closeSym) as [r Hr].
  rewrite Hr. unfold blockEnd in Hr.
  destruct (blockEnd_loop_nesting _ data openSym closeSym Hq 0 0 r Hr eq_refl)
    as [(m & -> & Hm) | [-> Hnone]].
  - intros j Hj (n' & x & -> & _). lia.
  - left; exists m; auto.
  - right; auto.
Qed.

Lemma blockEnd_first_balanced_close_witness :
  (exists m : nat,
      blockEnd (bs "[[1],2] ]") lbracket rbracket = Done (Z.of_nat m) /\
      closes_block lbracket rbracket (bs "[[1],2] ]") m /\
      forall j : nat, (j < m)%nat -> ~ closes_block lbracket rbracket (bs "[[1],2] ]") j)
  \/ (blockEnd (bs "[[1],2] ]") lbracket rbracket = Done (-1) /\
      forall j : nat, ~ closes_block lbracket rbracket (bs "[[1],2] ]") j).
Proof.
  apply (blockEnd_first_balanced_close (bs "[[1],2] ]") lbracket rbracket).
  reflexivity.
Defined.

(** ** Value classification on every buffer *)

Lemma slice_to_done (d v : bytes) (b : Z) :
  slice_to d b = Done v -> 0 <= b <= len d /\ v = firstn (Z.to_nat b) d.
Proof.
  unfold slice_to.
  destruct (Z.leb_spec 0 b) as [Ha|Ha]; simpl; [|discriminate].
  destruct (Z.leb_spec b (len d)) as [Hb|Hb]; [|discriminate].
  intros H; injection H as <-; split; [lia | reflexivity].
Qed.

Lemma slice_between_in_range (d : bytes) (a b : Z) :
  0 <= a <= b -> b <= len d ->
  slice_between d a b = Done (firstn (Z.to_nat (b - a)) (skipn (Z.to_nat a) d)).
Proof.
  intros [Ha Hab] Hb. unfold slice_between.
  destruct (Z.leb_spec 0 a); [|lia]. destruct (Z.leb_spec a b); [|lia].
  destruct (Z.leb_spec b (len d)); [|lia]. reflexivity.
Qed.

Lemma slice_between_done (d v : bytes) (a b : Z) :
  slice_between d a b = Done v ->
  0 <= a <= b /\ b <= len d /\ v = firstn (Z.to_nat (b - a)) (skipn (Z.to_nat a) d).
Proof.
  unfold slice_between.
  destruct (Z.leb_spec 0 a) as [Ha|Ha]; simpl; [|discriminate].
  destruct (Z.leb_spec a b) as [Hab|Hab]; simpl; [|discriminate].
  destruct (Z.leb_spec b (len d)) as [Hb|Hb]; [|discriminate].
  intros H; injection H as <-; repeat split; lia.
Qed.

Lemma len_cons (A : Type) (x : A) (d : list A) : len (x :: d) = len d + 1.
Proof. unfold len; simpl List.length; lia. Qed.

Lemma len_nonneg (A : Type) (d : list A) : 0 <= len d.
Proof. unfold len; lia. Qed.

Lemma literal_start_not_terminator (c : byte) :
  is_literal_start c = true -> is_token_terminator c = false.
Proof. intros H; destruct c; try discriminate H; reflexivity. Qed.

Lemma number_start_not_terminator (c : byte) :
  is_number_start c = true -> is_token_terminator c = false.
Proof. intros H; destruct c; try discriminate H; reflexivity. Qed.

Lemma first_terminator_bounds (data : bytes) (k : nat) :
  first_terminator_at data k -> (k < List.length data)%nat.
Proof. intros [(c & Hc & _) _]. apply nth_error_Some; congruence. Qed.

Lemma first_terminator_positive (c : byte) (rest : bytes) (k : nat) :
  is_token_terminator c = false -> first_terminator_at (c :: rest) k -> (1 <= k)%nat.
Proof.
  intros Hc [(x & Hx & Ht) _]. destruct k; [|lia].
  simpl in Hx; injection Hx as <-; congruence.
Qed.

Lemma first_terminator_unique (data : bytes) (k k' : nat) :
  first_terminator_at data k -> first_terminator_at data k' -> k = k'.
Proof.
  intros [(c & Hc & Ht) Hbefore] [(c' & Hc' & Ht') Hbefore'].
  destruct (Nat.lt_trichotomy k k') as [Hlt | [-> | Hgt]]; [|reflexivity|].
  - specialize (Hbefore' k Hlt). rewrite (nth_error_nth_byte _ _ _ Hc) in Hbefore'.
    congruence.
  - specialize (Hbefore k' Hgt). rewrite (nth_error_nth_byte _ _ _ Hc') in Hbefore.
    congruence.
Qed.

Lemma tokenEnd_at_first_terminator (data : bytes) (k : nat) :
  first_terminator_at data k -> tokenEnd data = Z.of_nat k.
Proof.
  intros Hk. destruct (Z.eq_dec (tokenEnd data) (-1)) as [E|E].
  - destruct Hk as [(c & Hc & Ht) _].
    rewrite (tokenEnd_range_absent data 0 E ltac:(lia) c) in Ht; [discriminate|].
    eapply nth_error_In; eauto.
  - destruct (tokenEnd_found data E) as (k' & Hr & Hk').
    now rewrite (first_terminator_unique _ _ _ Hk Hk').
Qed.

Lemma tokenEnd_none_no_terminator (data : bytes) :
  (forall c : byte, In c data -> is_token_terminator c = false) -> tokenEnd data = -1.
Proof.
  intros Hnone. destruct (Z.eq_dec (tokenEnd data) (-1)) as [E|E]; [exact E|].
  destruct (tokenEnd_found data E) as (k & _ & (c & Hc & Ht) & _).
  rewrite (Hnone c) in Ht; [discriminate | eapply nth_error_In; eauto].
Qed.

(** The branch of [GetValue] taken on each first byte. *)
Lemma GetValue_head (c : byte) (rest : bytes) :
  GetValue (c :: rest) =
  (let data := c :: rest in
   if Byte.eqb c quote then
     let strEndQuoteOffMinus1 := stringEnd rest in
     if strEndQuoteOffMinus1 =? -1
     then Done (None, Unknown, -1, Some MalformedStringError)
     else
       value <- slice_between data 1 strEndQuoteOffMinus1 ;;
       Done (Some value, String, strEndQuoteOffMinus1 + 1, None)
   else if Byte.eqb c lbracket then
     blockLen <- blockEnd data lbracket rbracket ;;
     if blockLen =? -1
     then Done (None, Unknown, -1, Some MalformedArrayError)
     else
       value <- slice_to data blockLen ;;
       Done (Some value, Array, blockLen, None)
   else if Byte.eqb c lbrace then
     blockLen <- blockEnd data lbrace rbrace ;;
     if blockLen =? -1
     then Done (None, Unknown, -1, Some MalformedObjectError)
     else
       value <- slice_to data blockLen ;;
       Done (Some value, Object, blockLen, None)
   else if is_literal_start c then
     let tokenLen := tokenEnd data in
     if tokenLen =? -1
     then Done (None, Unknown, -1, Some MalformedLiteralError)
     else
       value <- slice_to data tokenLen ;;
       if bytes_eqb value nullLiteral
       then Done (None, Null, tokenLen, None)
       else if bytes_eqb value trueLiteral || bytes_eqb value falseLiteral
       then Done (Some value, Boolean, tokenLen, None)
       else Done (None, Unknown, -1, Some UnknownValueTypeError)
   else if is_number_start c then
     let tokenLen := tokenEnd data in
     if tokenLen =? -1
     then Done (None, Unknown, -1, Some MalformedNumberError)
     else
       value <- slice_to data tokenLen ;;
       Done (Some value, Number, tokenLen, None)
   else Done (None, Unknown, -1, Some (errors_New "Unknown value type"))).
Proof.
  unfold GetValue.
  destruct (Z.eqb_spec (len (c :: rest)) 0) as [E|_];
    [rewrite len_cons in E; pose proof (len_nonneg _ rest); lia|].
  change (index (c :: rest) 0) with (Done c). cbv iota zeta.
  rewrite slice_from_in_range
    by (rewrite len_cons; pose proof (len_nonneg _ rest); lia).
  reflexivity.
Qed.

(** What a successful [GetValue] tells about the buffer, by value type. *)
Lemma GetValue_success_inv (data : bytes) (v : slice) (t : ValueType) (off : Z) :
  GetValue data = Done (v, t, off, None) ->
  exists (c : byte) (rest : bytes),
    data = c :: rest /\ v = value_slice_of data t off /\
    match t with
    | String => c = quote /\ stringEnd rest = off - 1 /\ off - 1 <> -1
    | Array => c = lbracket /\ blockEnd data lbracket rbracket = Done off /\ off <> -1
    | Object => c = lbrace /\ blockEnd data lbrace rbrace = Done off /\ off <> -1
    | Number => is_number_start c = true /\ tokenEnd data = off /\ off <> -1
    | Boolean =>
        is_literal_start c = true /\ tokenEnd data = off /\ off <> -1 /\
        (firstn (Z.to_nat off) data = trueLiteral \/
         firstn (Z.to_nat off) data = falseLiteral)
    | Null =>
        is_literal_start c = true /\ tokenEnd data = off /\ off <> -1 /\
        firstn (Z.to_nat off) data = nullLiteral
    | NotExist | Unknown => False
    end.
Proof.
  destruct data as [|c rest]; [discriminate|].
  rewrite GetValue_head. cbv zeta. intros H.
  exists c, rest. split; [reflexivity|].
  destruct (Byte.eqb c quote) eqn:Eq.
  { destruct (Z.eqb_spec (stringEnd rest) (-1)) as [|Hse]; [discriminate|].
    destruct (slice_between (c :: rest) 1 (stringEnd rest)) as [value| |] eqn:Ev;
      try discriminate.
    injection H as <- <- <-. apply slice_between_done in Ev as (_ & _ & ->).
    apply Byte.byte_dec_bl in Eq. unfold value_slice_of.
    replace (stringEnd rest + 1 - 2) with (stringEnd rest - 1) by lia.
    replace (stringEnd rest + 1 - 1) with (stringEnd rest) by lia.
    repeat split; auto. }
  destruct (Byte.eqb c lbracket) eqn:Ea.
  { destruct (blockEnd (c :: rest) lbracket rbracket) as [blockLen| |] eqn:Eb;
      try discriminate.
    destruct (Z.eqb_spec blockLen (-1)) as [|Hb]; [discriminate|].
    destruct (slice_to (c :: rest) blockLen) as [value| |] eqn:Ev; try discriminate.
    injection H as <- <- <-. apply slice_to_done in Ev as (_ & ->).
    apply Byte.byte_dec_bl in Ea. repeat split; auto. }
  destruct (Byte.eqb c lbrace) eqn:Eo.
  { destruct (blockEnd (c :: rest) lbrace rbrace) as [blockLen| |] eqn:Eb;
      try discriminate.
    destruct (Z.eqb_spec blockLen (-1)) as [|Hb]; [discriminate|].
    destruct (slice_to (c :: rest) blockLen) as [value| |] eqn:Ev; try discriminate.
    injection H as <- <- <-. apply slice_to_done in Ev as (_ & ->).
    apply Byte.byte_dec_bl in Eo. repeat split; auto. }
  destruct (is_literal_start c) eqn:El.
  { destruct (Z.eqb_spec (tokenEnd (c :: rest)) (-1)) as [|Ht]; [discriminate|].
    destruct (slice_to (c :: rest) (tokenEnd (c :: rest))) as [value| |] eqn:Ev;
      try discriminate.
    apply slice_to_done in Ev as (_ & ->).
    destruct (bytes_eqb _ nullLiteral) eqn:En.
    { injection H as <- <- <-. apply bytes_eqb_eq in En. repeat split; auto. }
    destruct (bytes_eqb _ trueLiteral) eqn:Et; simpl in H.
    { injection H as <- <- <-. apply bytes_eqb_eq in Et. repeat split; auto. }
    destruct (bytes_eqb _ falseLiteral) eqn:Ef; [|discriminate].
    injection H as <- <- <-. apply bytes_eqb_eq in Ef. repeat split; auto. }
  destruct (is_number_start c) eqn:Ed; [|discriminate].
  destruct (Z.eqb_spec (tokenEnd (c :: rest)) (-1)) as [|Ht]; [discriminate|].
  destruct (slice_to (c :: rest) (tokenEnd (c :: rest))) as [value| |] eqn:Ev;
    try discriminate.
  injection H as <- <- <-. apply slice_to_done in Ev as (_ & ->).
  repeat split; auto.
Qed.

Lemma GetValue_returns_shape :
  forall data : bytes,
    exists (v : slice) (t : ValueType) (off : Z) (e : option error),
      GetValue data = Done (v, t, off, e) /\
      match e with
      | Some _ => v = None /\ t = Unknown /\ off = -1
      | None => is_extracted_type t = true /\ 1 <= off <= len data
      end.
Proof.
  intros [|c rest]; [do 4 eexists; split; [reflexivity | simpl; auto]|].
  rewrite GetValue_head. cbv zeta.
  pose proof (len_cons _ c rest) as Hlen. pose proof (len_nonneg _ rest) as Hpos.
  destruct (Byte.eqb c quote).
  { destruct (Z.eqb_spec (stringEnd rest) (-1)) as [|Hse];
      [do 4 eexists; split; [reflexivity | simpl; auto]|].
    destruct (stringEnd_bounds rest) as [|Hb]; [contradiction|].
    rewrite slice_between_in_range by lia.
    do 4 eexists; split; [reflexivity | split; [reflexivity | lia]]. }
  destruct (Byte.eqb c lbracket).
  { destruct (blockEnd_returns (c :: rest) lbracket rbracket) as [r Hr]. rewrite Hr.
    destruct (Z.eqb_spec r (-1)) as [|Hne];
      [do 4 eexists; split; [reflexivity | simpl; auto]|].
    destruct (blockEnd_result _ _ _ _ Hr) as [|[Hb _]]; [contradiction|].
    rewrite slice_to_in_range by lia.
    do 4 eexists; split; [reflexivity | split; [reflexivity | lia]]. }
  destruct (Byte.eqb c lbrace).
  { destruct (blockEnd_returns (c :: rest) lbrace rbrace) as [r Hr]. rewrite Hr.
    destruct (Z.eqb_spec r (-1)) as [|Hne];
      [do 4 eexists; split; [reflexivity | simpl; auto]|].
    destruct (blockEnd_result _ _ _ _ Hr) as [|[Hb _]]; [contradiction|].
    rewrite slice_to_in_range by lia.
    do 4 eexists; split; [reflexivity | split; [reflexivity | lia]]. }
  destruct (is_literal_start c) eqn:El.
  { destruct (Z.eqb_spec (tokenEnd (c :: rest)) (-1)) as [|Ht];
      [do 4 eexists; split; [reflexivity | simpl; auto]|].
    destruct (tokenEnd_found _ Ht) as (k & Hk & Hfirst).
    pose proof (first_terminator_bounds _ _ Hfirst) as Hhi.
    pose proof (first_terminator_positive _ _ _
                  (literal_start_not_terminator _ El) Hfirst) as Hlo.
    unfold len in Hlen. rewrite slice_to_in_range by (unfold len; lia).
    destruct (bytes_eqb _ nullLiteral);
      [do 4 eexists; split; [reflexivity | split; [reflexivity | unfold len; lia]]|].
    destruct (bytes_eqb _ trueLiteral || bytes_eqb _ falseLiteral);
      [do 4 eexists; split; [reflexivity | split; [reflexivity | unfold len; lia]]
      | do 4 eexists; split; [reflexivity | simpl; auto]]. }
  destruct (is_number_start c) eqn:Ed;
    [|do 4 eexists; split; [reflexivity | simpl; auto]].
  destruct (Z.eqb_spec (tokenEnd (c :: rest)) (-1)) as [|Ht];
    [do 4 eexists; split; [reflexivity | simpl; auto]|].
  destruct (tokenEnd_found _ Ht) as (k & Hk & Hfirst).
  pose proof (first_terminator_bounds _ _ Hfirst) as Hhi.
  pose proof (first_terminator_positive _ _ _
                (number_start_not_terminator _ Ed) Hfirst) as Hlo.
  rewrite slice_to_in_range by (unfold len; lia).
  do 4 eexists; split; [reflexivity | split; [reflexivity | unfold len; lia]].
Qed.

(** X6.  [GetValue] returns on every buffer, without a panic.  With an
    error the slice is nil, the type [Unknown] and the offset [-1]; without
    one the type is one of the six value types and the offset lies between
    1 and the length of the buffer. *)
Theorem GetValue_returns_error_or_value :
  forall data : bytes,
    exists (v : slice) (t : ValueType) (off : Z) (e : option error),
      GetValue data = Done (v, t, off, e) /\
      match e with
      | Some _ => v = None /\ t = Unknown /\ off = -1
      | None => is_extracted_type t = true /\ 1 <= off <= len data
      end.
Proof. exact GetValue_returns_shape. Qed.

(** X7.  The slice a successful [GetValue] returns is a window of the
    buffer fixed by the type and the offset: the bytes between the quotes
    for a string, the bytes before the offset for an array, object, number
    or boolean, and nil for null. *)
Theorem GetValue_slice_is_window :
  forall (data : bytes) (v : slice) (t : ValueType) (off : Z),
    GetValue data = Done (v, t, off, None) ->
    v = value_slice_of data t off.
Proof.
  intros data v t off H.
  destruct (GetValue_success_inv _ _ _ _ H) as (c & rest & _ & Hv & _). exact Hv.
Qed.

Lemma GetValue_slice_is_window_witness :
  Some (bs "a b") = value_slice_of (quoted "a b" ++ bs ",") String 5 /\
  Some (bs "{}") = value_slice_of (bs "{} ") Object 2.
Proof.
  split.
  - apply (GetValue_slice_is_window (quoted "a b" ++ bs ",")); reflexivity.
  - apply (GetValue_slice_is_window (bs "{} ")); reflexivity.
Defined.

Lemma number_start_branch (c : byte) :
  is_number_start c = true ->
  Byte.eqb c quote = false /\ Byte.eqb c lbracket = false /\
  Byte.eqb c lbrace = false /\ is_literal_start c = false.
Proof. intros H; destruct c; try discriminate H; repeat split; reflexivity. Qed.

Lemma literal_start_branch (c : byte) :
  is_literal_start c = true ->
  Byte.eqb c quote = false /\ Byte.eqb c lbracket = false /\ Byte.eqb c lbrace = false.
Proof. intros H; destruct c; try discriminate H; repeat split; reflexivity. Qed.

Lemma GetValue_number_token (c : byte) (rest : bytes) (k : nat) :
  is_number_start c = true -> first_terminator_at (c :: rest) k ->
  GetValue (c :: rest) = Done (Some (firstn k (c :: rest)), Number, Z.of_nat k, None).
Proof.
  intros Hc Hk. rewrite GetValue_head. cbv zeta.
  destruct (number_start_branch c Hc) as (-> & -> & -> & ->). rewrite Hc.
  rewrite (tokenEnd_at_first_terminator _ _ Hk).
  destruct (Z.eqb_spec (Z.of_nat k) (-1)) as [|_]; [lia|].
  pose proof (first_terminator_bounds _ _ Hk).
  rewrite slice_to_in_range by (unfold len; lia).
  now rewrite Nat2Z.id.
Qed.

Lemma GetValue_number_unterminated (c : byte) (rest : bytes) :
  is_number_start c = true ->
  (forall x : byte, In x (c :: rest) -> is_token_terminator x = false) ->
  GetValue (c :: rest) = Done (None, Unknown, -1, Some MalformedNumberError).
Proof.
  intros Hc Hnone. rewrite GetValue_head. cbv zeta.
  destruct (number_start_branch c Hc) as (-> & -> & -> & ->). rewrite Hc.
  now rewrite (tokenEnd_none_no_terminator _ Hnone).
Qed.

(** X8.  A token that starts with a digit or a minus sign is a [Number]
    whatever bytes follow up to the first token terminator: the slice is
    the token as it stands and the offset its length.  With no terminator
    in the buffer the result is [MalformedNumberError]. *)
Theorem GetValue_number_is_not_validated :
  forall (c : byte) (rest : bytes),
    is_number_start c = true ->
    (forall k : nat, first_terminator_at (c :: rest) k ->
       GetValue (c :: rest) =
       Done (Some (firstn k (c :: rest)), Number, Z.of_nat k, None)) /\
    ((forall x : byte, In x (c :: rest) -> is_token_terminator x = false) ->
       GetValue (c :: rest) = Done (None, Unknown, -1, Some MalformedNumberError)).
Proof.
  intros c rest Hc. split.
  - intros k Hk. now apply GetValue_number_token.
  - intros Hnone. now apply GetValue_number_unterminated.
Qed.

Lemma GetValue_number_is_not_validated_witness :
  GetValue (bs "1.2.3-x,4") = Done (Some (bs "1.2.3-x"), Number, 7, None).
Proof.
  apply (proj1 (GetValue_number_is_not_validated "1" (bs ".2.3-x,4") eq_refl) 7%nat).
  split.
  - exists ","%byte; split; reflexivity.
  - intros k Hk. do 7 (destruct k as [|k]; [reflexivity|]). lia.
Defined.

Lemma bytes_eqb_false_neq (a b : bytes) : bytes_eqb a b = false -> a <> b.
Proof. intros H E. apply bytes_eqb_eq in E. congruence. Qed.

Lemma GetValue_error_cause :
  forall (data : bytes) (v : slice) (t : ValueType) (off : Z) (e : error),
    GetValue data = Done (v, t, off, Some e) -> error_cause data e.
Proof.
  intros [|c rest] v t off e H; [injection H as _ _ _ <-; now left|].
  rewrite GetValue_head in H. cbv zeta in H.
  destruct (Byte.eqb c quote) eqn:Eq.
  { destruct (Z.eqb_spec (stringEnd rest) (-1)) as [Hse|Hse].
    - injection H as _ _ _ <-. apply Byte.byte_dec_bl in Eq; subst c.
      exists rest; split; [reflexivity|].
      destruct (stringEnd_spec rest) as [(k & Hk & _) | [_ Hall]]; [lia | exact Hall].
    - destruct (slice_between (c :: rest) 1 (stringEnd rest)); discriminate. }
  destruct (Byte.eqb c lbracket) eqn:Ea.
  { destruct (blockEnd (c :: rest) lbracket rbracket) as [r| |] eqn:Er; try discriminate.
    destruct (Z.eqb_spec r (-1)) as [->|Hne].
    - injection H as _ _ _ <-. apply Byte.byte_dec_bl in Ea; subst c.
      exists rest; auto.
    - destruct (slice_to (c :: rest) r); discriminate. }
  destruct (Byte.eqb c lbrace) eqn:Eo.
  { destruct (blockEnd (c :: rest) lbrace rbrace) as [r| |] eqn:Er; try discriminate.
    destruct (Z.eqb_spec r (-1)) as [->|Hne].
    - injection H as _ _ _ <-. apply Byte.byte_dec_bl in Eo; subst c.
      exists rest; auto.
    - destruct (slice_to (c :: rest) r); discriminate. }
  destruct (is_literal_start c) eqn:El.
  { destruct (Z.eqb_spec (tokenEnd (c :: rest)) (-1)) as [Ht|Ht].
    - injection H as _ _ _ <-. exists c, rest; repeat split; auto.
      apply (tokenEnd_range_absent (c :: rest) 0 Ht); lia.
    - destruct (tokenEnd_found _ Ht) as (k & Hk & Hfirst).
      destruct (slice_to (c :: rest) (tokenEnd (c :: rest))) as [value| |] eqn:Ev;
        try discriminate.
      apply slice_to_done in Ev as (_ & ->). rewrite Hk, Nat2Z.id in H.
      destruct (bytes_eqb _ nullLiteral) eqn:En; [discriminate|].
      destruct (bytes_eqb _ trueLiteral) eqn:Et; [discriminate|].
      destruct (bytes_eqb _ falseLiteral) eqn:Ef; [discriminate|].
      injection H as _ _ _ <-. right. exists c, rest, k.
      repeat split; auto using bytes_eqb_false_neq; apply Hfirst. }
  destruct (is_number_start c) eqn:Ed.
  { destruct (Z.eqb_spec (tokenEnd (c :: rest)) (-1)) as [Ht|Ht].
    - injection H as _ _ _ <-. exists c, rest; repeat split; auto.
      apply (tokenEnd_range_absent (c :: rest) 0 Ht); lia.
    - destruct (slice_to (c :: rest) (tokenEnd (c :: rest))); discriminate. }
  injection H as _ _ _ <-. split; [reflexivity|].
  exists c, rest; repeat split; auto.
Qed.

(** X9.  Every error [GetValue] returns has one cause in the buffer: an
    unterminated string, array, object, number or literal for the five
    malformed errors, an empty buffer or a wrong literal for
    [UnknownValueTypeError], and a first byte that starts no value for an
    error made on the spot, with the text of [UnknownValueTypeError] but
    not that variable.  No other error is returned. *)
Theorem GetValue_error_has_cause :
  forall (data : bytes) (v : slice) (t : ValueType) (off : Z) (e : error),
    GetValue data = Done (v, t, off, Some e) -> error_cause data e.
Proof. exact GetValue_error_cause. Qed.

Lemma GetValue_error_has_cause_witness :
  error_cause (bs "[1, 2") MalformedArrayError /\
  error_cause (bs "nul,") UnknownValueTypeError /\
  error_cause (bs "?") (errors_New "Unknown value type").
Proof.
  split; [|split].
  - apply (GetValue_error_has_cause (bs "[1, 2") None Unknown (-1)); reflexivity.
  - apply (GetValue_error_has_cause (bs "nul,") None Unknown (-1)); reflexivity.
  - apply (GetValue_error_has_cause (bs "?") None Unknown (-1)); reflexivity.
Defined.

(** ** Strings *)

Lemma stringEnd_unique (data : bytes) (k : nat) :
  unescaped_quote_at data k -> quotes_escaped_between data 0 k ->
  stringEnd data = Z.of_nat k + 1.
Proof.
  intros [Hq Heven] Hskipped.
  destruct (stringEnd_spec data) as [(k' & Hr & [Hq' Heven'] & Hskipped') | [_ Hall]].
  - destruct (Nat.lt_trichotomy k k') as [Hlt | [-> | Hgt]]; [|exact Hr|].
    + exfalso; apply (even_odd_clash _ Heven). apply Hskipped'; [lia | exact Hq].
    + exfalso; apply (even_odd_clash _ Heven'). apply Hskipped; [lia | exact Hq'].
  - exfalso; apply (even_odd_clash _ Heven).
    apply (Hall (S k)); [lia | exact Hq].
Qed.

Lemma plain_text_nth (s : bytes) (j : nat) (x : byte) :
  plain_text s = true -> nth_error s j = Some x ->
  Byte.eqb x quote = false /\ Byte.eqb x backslash = false.
Proof.
  intros Hs Hj. pose proof (forallb_nth_error _ _ _ _ _ Hs Hj) as H.
  simpl in H. apply andb_true_iff in H as [H1 H2].
  now apply negb_true_iff in H1; apply negb_true_iff in H2.
Qed.

Lemma backslashes_before_plain (s tail : bytes) :
  plain_text s = true -> backslashes_before (s ++ tail) (List.length s) = O.
Proof.
  intros Hs. destruct (List.length s) as [|n] eqn:En; [reflexivity|]. simpl.
  assert (Hn : (n < List.length s)%nat) by lia.
  rewrite app_nth1 by exact Hn.
  destruct (nth_error s n) as [x|] eqn:Ex; [|apply nth_error_None in Ex; lia].
  rewrite (nth_error_nth_byte _ _ _ Ex).
  now rewrite (proj2 (plain_text_nth _ _ _ Hs Ex)).
Qed.

Lemma stringEnd_plain (s rest : bytes) :
  plain_text s = true -> stringEnd (s ++ quote :: rest) = len s + 1.
Proof.
  intros Hs. apply stringEnd_unique.
  - split.
    + rewrite nth_error_app2 by lia. now rewrite Nat.sub_diag.
    + now rewrite backslashes_before_plain.
  - intros j Hj Hq. rewrite nth_error_app1 in Hq by lia.
    destruct (plain_text_nth _ _ _ Hs Hq) as [Hx _]. discriminate Hx.
Qed.

Lemma stringEnd_plain_unterminated (s : bytes) :
  plain_text s = true -> stringEnd s = -1.
Proof.
  intros Hs. destruct (stringEnd_spec s) as [(k & _ & [Hq _] & _) | [Hr _]];
    [|exact Hr].
  destruct (plain_text_nth _ _ _ Hs Hq) as [Hx _]. discriminate Hx.
Qed.

Lemma GetValue_plain_text :
  forall s rest : bytes,
    plain_text s = true ->
    GetValue (quote :: s ++ quote :: rest) = Done (Some s, String, len s + 2, None) /\
    GetValue (quote :: s) = Done (None, Unknown, -1, Some MalformedStringError).
Proof.
  intros s rest Hs. split.
  - rewrite GetValue_head. cbv zeta. change (Byte.eqb quote quote) with true. cbv iota.
    rewrite (stringEnd_plain s rest Hs).
    pose proof (len_nonneg _ s) as Hpos.
    destruct (Z.eqb_spec (len s + 1) (-1)) as [|_]; [lia|].
    rewrite slice_between_in_range
      by (try rewrite len_cons; unfold len in *; try rewrite length_app;
          simpl List.length; lia).
    change (skipn (Z.to_nat 1) (quote :: s ++ quote :: rest)) with (s ++ quote :: rest).
    replace (Z.to_nat (len s + 1 - 1)) with (List.length s) by (unfold len; lia).
    rewrite firstn_app, Nat.sub_diag, firstn_all. simpl. rewrite app_nil_r.
    f_equal. f_equal. f_equal. lia.
  - rewrite GetValue_head. cbv zeta. change (Byte.eqb quote quote) with true. cbv iota.
    now rewrite (stringEnd_plain_unterminated s Hs).
Qed.

(** X12.  A text without quotes and backslashes put between two quotes is
    read back as it is: [GetValue] returns the text, the type [String] and
    an offset one past the closing quote, whatever follows.  Without the
    closing quote the result is [MalformedStringError]. *)
Theorem GetValue_plain_string :
  forall s rest : bytes,
    plain_text s = true ->
    GetValue (quote :: s ++ quote :: rest) = Done (Some s, String, len s + 2, None) /\
    GetValue (quote :: s) = Done (None, Unknown, -1, Some MalformedStringError).
Proof. exact GetValue_plain_text. Qed.

Lemma GetValue_plain_string_witness :
  GetValue (quoted "abc" ++ bs ",1") = Done (Some (bs "abc"), String, 5, None) /\
  GetValue (quote :: bs "abc") = Done (None, Unknown, -1, Some MalformedStringError).
Proof.
  apply (GetValue_plain_string (bs "abc") (bs ",1")). reflexivity.
Defined.

(** ** Reading an extracted slice again *)

Lemma backslashes_before_firstn (data : bytes) (m j : nat) :
  (j <= m)%nat -> backslashes_before (firstn m data) j = backslashes_before data j.
Proof.
  induction j as [|j IH]; intros Hj; simpl; [reflexivity|].
  rewrite nth_firstn. destruct (Nat.ltb_spec j m) as [_|Hge]; [|lia].
  now rewrite IH by lia.
Qed.

Lemma nth_error_firstn_lt (A : Type) (d : list A) (m j : nat) :
  (j < m)%nat -> nth_error (firstn m d) j = nth_error d j.
Proof.
  intros Hj. rewrite nth_error_firstn.
  destruct (Nat.ltb_spec j m); [reflexivity | lia].
Qed.

(** [stringEnd] reads nothing beyond the quote it stops at. *)
Lemma stringEnd_prefix (tail : bytes) (m : nat) :
  stringEnd tail <> -1 -> stringEnd tail <= Z.of_nat m ->
  stringEnd (firstn m tail) = stringEnd tail.
Proof.
  intros Hne Hle. destruct (stringEnd_found _ Hne) as (k & Hr & [Hq Heven] & Hskipped).
  rewrite Hr. apply stringEnd_unique.
  - split.
    + rewrite nth_error_firstn_lt by lia. exact Hq.
    + rewrite backslashes_before_firstn by lia. exact Heven.
  - intros j Hj Hqj. rewrite nth_error_firstn_lt in Hqj by lia.
    rewrite backslashes_before_firstn by lia. now apply Hskipped.
Qed.

Lemma blockEnd_loop_unfold (fuel : nat) (data : bytes) (openSym closeSym : byte)
  (i level : Z) :
  blockEnd_loop (S fuel) data openSym closeSym i level =
  if negb (i <? len data) then Done (-1)
  else
    c <- index data i ;;
    if Byte.eqb c quote then
      tail <- slice_from data (i + 1) ;;
      if stringEnd tail =? -1 then Done (-1)
      else blockEnd_loop fuel data openSym closeSym (i + stringEnd tail + 1) level
    else if Byte.eqb c openSym then
      blockEnd_loop fuel data openSym closeSym (i + 1) (level + 1)
    else if Byte.eqb c closeSym then
      if level - 1 =? 0 then Done (i + 1)
      else blockEnd_loop fuel data openSym closeSym (i + 1) (level - 1)
    else blockEnd_loop fuel data openSym closeSym (i + 1) level.
Proof. reflexivity. Qed.

Lemma blockEnd_loop_more_fuel (fuel extra : nat) (data : bytes) (openSym closeSym : byte) :
  forall (i level r : Z),
    blockEnd_loop fuel data openSym closeSym i level = Done r ->
    blockEnd_loop (fuel + extra) data openSym closeSym i level = Done r.
Proof.
  induction fuel as [|fuel IH]; intros i level r H; [discriminate|].
  simpl in H |- *. same_branch H; auto.
Qed.

Lemma blockEnd_loop_above (fuel : nat) (data : bytes) (openSym closeSym : byte) :
  forall (i level r : Z), 0 <= i ->
    blockEnd_loop fuel data openSym closeSym i level = Done r ->
    r = -1 \/ i < r.
Proof.
  induction fuel as [|fuel IH]; intros i level r Hi H; [discriminate|].
  rewrite blockEnd_loop_unfold in H.
  destruct (Z.ltb_spec i (len data)) as [Hlt|Hge]; simpl in H;
    [|injection H as <-; now left].
  destruct (index data i) as [c| |]; try discriminate.
  destruct (Byte.eqb c quote).
  { destruct (slice_from data (i + 1)) as [tail| |]; try discriminate.
    destruct (Z.eqb_spec (stringEnd tail) (-1)) as [|Hse];
      [injection H as <-; now left|].
    destruct (stringEnd_bounds tail) as [|Hb]; [contradiction|].
    apply IH in H; [|lia]. destruct H; [now left | right; lia]. }
  destruct (Byte.eqb c openSym);
    [apply IH in H; [|lia]; destruct H; [now left | right; lia]|].
  destruct (Byte.eqb c closeSym);
    [|apply IH in H; [|lia]; destruct H; [now left | right; lia]].
  destruct (Z.eqb_spec (level - 1) 0);
    [injection H as <-; right; lia|].
  apply IH in H; [|lia]. destruct H; [now left | right; lia].
Qed.

Lemma index_firstn (d : bytes) (m : nat) (i : Z) :
  0 <= i < Z.of_nat m -> index (firstn m d) i = index d i.
Proof.
  intros Hi. unfold index. destruct (Z.ltb_spec i 0); [lia|].
  now rewrite nth_error_firstn_lt by lia.
Qed.

Lemma len_firstn (d : bytes) (r : Z) :
  0 <= r <= len d -> len (firstn (Z.to_nat r) d) = r.
Proof. intros Hr. unfold len in *. rewrite length_firstn. lia. Qed.

(** The run of [blockEnd] that stops at [r] is the same on [data[:r]]. *)
Lemma blockEnd_loop_prefix (fuel : nat) (data : bytes) (openSym closeSym : byte) :
  forall (i level r : Z), 0 <= i ->
    blockEnd_loop fuel data openSym closeSym i level = Done r -> r <> -1 ->
    blockEnd_loop fuel (firstn (Z.to_nat r) data) openSym closeSym i level = Done r.
Proof.
  induction fuel as [|fuel IH]; intros i level r Hi H Hr; [discriminate|].
  destruct (blockEnd_loop_above _ _ _ _ _ _ _ Hi H) as [|Hir]; [contradiction|].
  destruct (blockEnd_loop_result _ _ _ _ _ _ _ Hi H) as [|[Hbound _]]; [contradiction|].
  pose proof (len_firstn data r ltac:(lia)) as Hlen.
  rewrite blockEnd_loop_unfold in H |- *. rewrite Hlen.
  destruct (Z.ltb_spec i (len data)) as [Hlt|Hge]; [|lia].
  destruct (Z.ltb_spec i r) as [_|Hge]; [|lia]. simpl negb in H |- *. cbv iota in H |- *.
  rewrite index_firstn by lia.
  destruct (index data i) as [c| |]; try discriminate.
  destruct (Byte.eqb c quote).
  { rewrite slice_from_in_range in H by lia.
    rewrite slice_from_in_range by lia.
    rewrite skipn_firstn_comm.
    set (tail := skipn (Z.to_nat (i + 1)) data) in *.
    destruct (Z.eqb_spec (stringEnd tail) (-1)) as [|Hse]; [congruence|].
    destruct (stringEnd_bounds tail) as [|Hb]; [contradiction|].
    assert (Hnext : 0 <= i + stringEnd tail + 1) by lia.
    destruct (blockEnd_loop_above _ _ _ _ _ _ _ Hnext H) as [|Hjump];
      [contradiction|].
    rewrite stringEnd_prefix by lia.
    destruct (Z.eqb_spec (stringEnd tail) (-1)) as [|_]; [contradiction|].
    apply IH; [lia | exact H | exact Hr]. }
  destruct (Byte.eqb c openSym); [apply IH; [lia | exact H | exact Hr]|].
  destruct (Byte.eqb c closeSym); [|apply IH; [lia | exact H | exact Hr]].
  destruct (Z.eqb_spec (level - 1) 0); [exact H|].
  apply IH; [lia | exact H | exact Hr].
Qed.

Lemma blockEnd_prefix (data : bytes) (openSym closeSym : byte) (r : Z) :
  blockEnd data openSym closeSym = Done r -> r <> -1 ->
  blockEnd (firstn (Z.to_nat r) data) openSym closeSym = Done r.
Proof.
  intros H Hr. unfold blockEnd in *.
  destruct (blockEnd_loop_result _ _ _ _ _ _ _ (Z.le_refl 0) H) as [|[Hbound _]];
    [contradiction|].
  apply blockEnd_loop_prefix in H; [|lia | exact Hr].
  set (p := firstn (Z.to_nat r) data) in *.
  destruct (blockEnd_loop_returns (S (List.length p)) p openSym closeSym 0 0)
    as [r' Hr']; [pose proof (len_nonneg _ p); lia | unfold len; lia |].
  assert (Hle : (List.length p <= List.length data)%nat)
    by (unfold p; rewrite length_firstn; lia).
  pose proof (blockEnd_loop_more_fuel _ (List.length data - List.length p)
                _ _ _ _ _ _ Hr') as Hmore.
  replace (S (List.length p) + (List.length data - List.length p))%nat
    with (S (List.length data)) in Hmore by lia.
  congruence.
Qed.

Lemma GetValue_block_again (c closeSym : byte) (rest : bytes) (off : Z) :
  blockEnd (c :: rest) c closeSym = Done off -> off <> -1 ->
  exists v : bytes,
    v = firstn (Z.to_nat off) (c :: rest) /\ len v = off /\
    exists rest' : bytes, v = c :: rest' /\
      blockEnd v c closeSym = Done off /\ slice_to v off = Done v.
Proof.
  intros Hb Hne.
  destruct (blockEnd_result _ _ _ _ Hb) as [|[Hbound _]]; [contradiction|].
  pose proof (blockEnd_prefix _ _ _ _ Hb Hne) as Hp.
  pose proof (len_firstn (c :: rest) off ltac:(lia)) as Hlen.
  exists (firstn (Z.to_nat off) (c :: rest)). split; [reflexivity|]. split; [exact Hlen|].
  destruct (Z.to_nat off) as [|n] eqn:En; [lia|].
  exists (firstn n rest). split; [reflexivity|]. split; [exact Hp|].
  rewrite slice_to_in_range by lia. rewrite En.
  f_equal. rewrite <- En at 1.
  replace (Z.to_nat off) with (List.length (firstn (S n) (c :: rest)))
    by (unfold len in Hlen; lia).
  apply firstn_all.
Qed.

(** X10.  An array or object slice that [GetValue] extracted is read again
    by [GetValue] as the same slice with the same type, the offset being
    its length. *)
Theorem GetValue_block_round_trip :
  forall (data v : bytes) (t : ValueType) (off : Z),
    GetValue data = Done (Some v, t, off, None) ->
    t = Array \/ t = Object ->
    GetValue v = Done (Some v, t, len v, None) /\ len v = off.
Proof.
  intros data v t off H Ht.
  destruct (GetValue_success_inv _ _ _ _ H) as (c & rest & -> & Hv & Hcase).
  destruct Ht as [-> | ->]; destruct Hcase as (-> & Hb & Hne);
    simpl in Hv; injection Hv as ->;
    destruct (GetValue_block_again _ _ _ _ Hb Hne)
      as (v & <- & Hlen & rest' & Hcons & Hagain & Hslice);
    (split; [|exact Hlen]); rewrite Hlen;
    rewrite Hcons in Hagain, Hslice |- *;
    rewrite GetValue_head; cbv zeta.
  - change (Byte.eqb lbracket quote) with false.
    change (Byte.eqb lbracket lbracket) with true. cbv iota.
    rewrite Hagain.
    destruct (Z.eqb_spec off (-1)) as [|_]; [contradiction|]. now rewrite Hslice.
  - change (Byte.eqb lbrace quote) with false.
    change (Byte.eqb lbrace lbracket) with false.
    change (Byte.eqb lbrace lbrace) with true. cbv iota.
    rewrite Hagain.
    destruct (Z.eqb_spec off (-1)) as [|_]; [contradiction|]. now rewrite Hslice.
Qed.

Lemma GetValue_block_round_trip_witness :
  GetValue (bs "[1,[2]]") = Done (Some (bs "[1,[2]]"), Array, len (bs "[1,[2]]"), None) /\
  len (bs "[1,[2]]") = 7.
Proof.
  apply (GetValue_block_round_trip (bs "[1,[2]] , 3") (bs "[1,[2]]") Array 7);
    [reflexivity | left; reflexivity].
Defined.

Lemma In_firstn_nth (d : bytes) (k : nat) (x : byte) :
  In x (firstn k d) -> exists j : nat, (j < k)%nat /\ nth j d x00 = x.
Proof.
  intros Hin. destruct (In_nth _ _ x00 Hin) as (j & Hj & Hx).
  rewrite length_firstn in Hj. exists j; split; [lia|].
  rewrite nth_firstn in Hx. destruct (Nat.ltb_spec j k); [exact Hx | lia].
Qed.

Lemma token_has_no_terminator (data : bytes) (k : nat) :
  first_terminator_at data k ->
  forall x : byte, In x (firstn k data) -> is_token_terminator x = false.
Proof.
  intros [_ Hbefore] x Hin.
  destruct (In_firstn_nth _ _ _ Hin) as (j & Hj & <-). now apply Hbefore.
Qed.

Lemma GetValue_literal_unterminated (c : byte) (rest : bytes) :
  is_literal_start c = true ->
  (forall x : byte, In x (c :: rest) -> is_token_terminator x = false) ->
  GetValue (c :: rest) = Done (None, Unknown, -1, Some MalformedLiteralError).
Proof.
  intros Hc Hnone. rewrite GetValue_head. cbv zeta.
  destruct (literal_start_branch c Hc) as (-> & -> & ->). rewrite Hc.
  now rewrite (tokenEnd_none_no_terminator _ Hnone).
Qed.

Lemma token_slice_shape (c : byte) (rest : bytes) (off : Z) :
  is_token_terminator c = false -> tokenEnd (c :: rest) = off -> off <> -1 ->
  exists (k : nat) (rest' : bytes),
    firstn (Z.to_nat off) (c :: rest) = c :: rest' /\
    forall x : byte, In x (c :: rest') -> is_token_terminator x = false.
Proof.
  intros Hc Hoff Hne. subst off.
  destruct (tokenEnd_found _ Hne) as (k & Hk & Hfirst).
  pose proof (first_terminator_positive _ _ _ Hc Hfirst) as Hpos.
  pose proof (token_has_no_terminator _ _ Hfirst) as Hnone.
  rewrite Hk, Nat2Z.id in *. destruct k as [|k]; [lia|].
  exists (S k), (firstn k rest). split; [reflexivity | exact Hnone].
Qed.

(** X11.  A number or boolean slice that [GetValue] extracted is not read
    again by [GetValue]: the slice holds the token without the terminator
    that bounded it, so the result is [MalformedNumberError] for a number
    and [MalformedLiteralError] for a boolean. *)
Theorem GetValue_token_slice_not_reread :
  forall (data v : bytes) (t : ValueType) (off : Z),
    GetValue data = Done (Some v, t, off, None) ->
    (t = Number ->
       GetValue v = Done (None, Unknown, -1, Some MalformedNumberError)) /\
    (t = Boolean ->
       GetValue v = Done (None, Unknown, -1, Some MalformedLiteralError)).
Proof.
  intros data v t off H.
  destruct (GetValue_success_inv _ _ _ _ H) as (c & rest & -> & Hv & Hcase).
  split; intros ->; simpl in Hv; injection Hv as ->.
  - destruct Hcase as (Hc & Hoff & Hne).
    destruct (token_slice_shape c rest off (number_start_not_terminator _ Hc) Hoff Hne)
      as (k & rest' & -> & Hnone).
    now apply GetValue_number_unterminated.
  - destruct Hcase as (Hc & Hoff & Hne & _).
    destruct (token_slice_shape c rest off (literal_start_not_terminator _ Hc) Hoff Hne)
      as (k & rest' & -> & Hnone).
    now apply GetValue_literal_unterminated.
Qed.

Lemma GetValue_token_slice_not_reread_witness :
  GetValue (bs "42") = Done (None, Unknown, -1, Some MalformedNumberError) /\
  GetValue (bs "true") = Done (None, Unknown, -1, Some MalformedLiteralError).
Proof.
  split.
  - apply (proj1 (GetValue_token_slice_not_reread (bs "42,") (bs "42") Number 2 eq_refl)).
    reflexivity.
  - apply (proj2 (GetValue_token_slice_not_reread (bs "true]") (bs "true") Boolean 4
                    eq_refl)).
    reflexivity.
Defined.

(** ** Key-path search on every buffer *)

Lemma searchKeys_loop_unfold (fuel : nat) (data : bytes) (keys : list bytes)
  (i level keyLevel : Z) :
  searchKeys_loop (S fuel) data keys i level keyLevel =
  if negb (i <? len data) then Done (-1)
  else
    c <- index data i ;;
    if Byte.eqb c quote then
      tail <- slice_from data (i + 1) ;;
      if stringEnd tail =? -1 then Done (-1)
      else
        tail' <- slice_from data (i + 1 + stringEnd tail) ;;
        if nextToken tail' =? -1 then Done (-1)
        else
          c' <- index data (i + 1 + stringEnd tail + nextToken tail') ;;
          if Byte.eqb c' colon then
            key <- slice_between data (i + 1) (i + 1 + stringEnd tail - 1) ;;
            matched <- (if keyLevel =? level - 1
                        then k <- index keys (level - 1) ;; Done (bytes_eqb k key)
                        else Done false) ;;
            if matched then
              if keyLevel + 1 =? len keys
              then Done (i + 1 + stringEnd tail + nextToken tail' + 1)
              else searchKeys_loop fuel data keys
                     (i + 1 + stringEnd tail + nextToken tail' + 1) level (keyLevel + 1)
            else searchKeys_loop fuel data keys
                   (i + 1 + stringEnd tail + nextToken tail' + 1) level keyLevel
          else searchKeys_loop fuel data keys
                 (i + 1 + stringEnd tail + nextToken tail' - 1 + 1) level keyLevel
    else if Byte.eqb c lbrace then
      searchKeys_loop fuel data keys (i + 1) (level + 1) keyLevel
    else if Byte.eqb c rbrace then
      searchKeys_loop fuel data keys (i + 1) (level - 1) keyLevel
    else if Byte.eqb c lbracket then
      tail <- slice_from data i ;;
      arraySkip <- blockEnd tail lbracket rbracket ;;
      searchKeys_loop fuel data keys (i + (arraySkip - 1) + 1) level keyLevel
    else searchKeys_loop fuel data keys (i + 1) level keyLevel.
Proof. reflexivity. Qed.

(** Whatever the key search returns besides [-1] is one past a colon. *)
Lemma searchKeys_loop_result (fuel : nat) (data : bytes) (keys : list bytes) :
  forall (i level keyLevel r : Z),
    searchKeys_loop fuel data keys i level keyLevel = Done r ->
    r = -1 \/ index data (r - 1) = Done colon.
Proof.
  induction fuel as [|fuel IH]; intros i level keyLevel r H; [discriminate|].
  rewrite searchKeys_loop_unfold in H.
  repeat match type of H with
         | match ?x with _ => _ end = _ => destruct x eqn:?; try discriminate H
         end;
    try (apply IH in H; exact H);
    injection H as <-; try (now left).
  right. match goal with
         | Hc : Byte.eqb ?c colon = true, Hi : index data ?j = Done ?c |- _ =>
             apply Byte.byte_dec_bl in Hc; subst c;
             replace (j + 1 - 1) with j by lia; exact Hi
         end.
Qed.

Lemma searchKeys_result (fuel : nat) (data : bytes) (keys : list bytes) (r : Z) :
  searchKeys fuel data keys = Done r ->
  r = -1 \/ (1 <= r <= len data /\ index data (r - 1) = Done colon).
Proof.
  intros H. destruct (searchKeys_loop_result _ _ _ _ _ _ _ H) as [|Hc];
    [now left | right].
  split; [|exact Hc]. apply index_done_range in Hc as [Hr _]. lia.
Qed.

Lemma arrays_closed_at (data : bytes) (n : nat) :
  arrays_closed data = true -> nth_error data n = Some lbracket ->
  exists r : Z, blockEnd (skipn n data) lbracket rbracket = Done r /\ r <> -1.
Proof.
  intros Hall Hn. unfold arrays_closed in Hall. rewrite forallb_forall in Hall.
  assert (Hlt : (n < List.length data)%nat) by (apply nth_error_Some; congruence).
  specialize (Hall n ltac:(apply in_seq; lia)). rewrite Hn in Hall.
  change (Byte.eqb lbracket lbracket) with true in Hall. cbv iota in Hall.
  destruct (blockEnd (skipn n data) lbracket rbracket) as [r| |]; try discriminate.
  exists r; split; [reflexivity|].
  destruct (Z.eqb_spec r (-1)); [discriminate | assumption].
Qed.

(** With every array closed and a key to look for, the search reads and
    slices within bounds and moves forward in every iteration. *)
Lemma searchKeys_loop_returns (fuel : nat) (data : bytes) (keys : list bytes) :
  arrays_closed data = true ->
  forall (i level keyLevel : Z),
    0 <= i <= len data -> 0 <= keyLevel < len keys -> len data - i < Z.of_nat fuel ->
    exists r : Z, searchKeys_loop fuel data keys i level keyLevel = Done r.
Proof.
  intros Hclosed. induction fuel as [|fuel IH]; intros i level keyLevel Hi Hk Hfuel;
    [lia|].
  rewrite searchKeys_loop_unfold.
  destruct (Z.ltb_spec i (len data)) as [Hlt|Hge]; simpl negb; cbv iota; [|eauto].
  destruct (index data i) as [c| |] eqn:Ec;
    try (destruct (index_in_range _ data i ltac:(lia)) as [c' Hc']; congruence).
  destruct (Byte.eqb c quote).
  { rewrite slice_from_in_range by lia.
    set (tail := skipn (Z.to_nat (i + 1)) data).
    assert (Htail : len tail = len data - (i + 1))
      by (unfold tail, len; rewrite length_skipn; unfold len in *; lia).
    destruct (Z.eqb_spec (stringEnd tail) (-1)) as [|Hse]; [eauto|].
    destruct (stringEnd_bounds tail) as [|Hb]; [contradiction|].
    rewrite slice_from_in_range by lia.
    set (tail' := skipn (Z.to_nat (i + 1 + stringEnd tail)) data).
    assert (Htail' : len tail' = len data - (i + 1 + stringEnd tail))
      by (unfold tail', len; rewrite length_skipn; unfold len in *; lia).
    destruct (Z.eqb_spec (nextToken tail') (-1)) as [|Hnt]; [eauto|].
    destruct (nextToken_found _ Hnt) as (k & Hk' & (x & Hx & _) & _).
    assert (k < List.length tail')%nat by (apply nth_error_Some; congruence).
    assert (Hvo : 0 <= nextToken tail' < len tail') by (unfold len; lia).
    destruct (index_in_range _ data (i + 1 + stringEnd tail + nextToken tail')
                ltac:(lia)) as [c' ->].
    destruct (Byte.eqb c' colon); [|apply IH; lia].
    rewrite slice_between_in_range by lia.
    destruct (Z.eqb_spec keyLevel (level - 1)) as [Hlevel|_].
    - destruct (index_in_range _ keys (level - 1) ltac:(lia)) as [key ->].
      destruct (bytes_eqb key _); [|apply IH; lia].
      destruct (Z.eqb_spec (keyLevel + 1) (len keys)); [eauto | apply IH; lia].
    - apply IH; lia. }
  destruct (Byte.eqb c lbrace); [apply IH; lia|].
  destruct (Byte.eqb c rbrace); [apply IH; lia|].
  destruct (Byte.eqb c lbracket) eqn:Eb; [|apply IH; lia].
  apply Byte.byte_dec_bl in Eb; subst c.
  rewrite slice_from_in_range by lia.
  apply index_done_range in Ec as [_ Hn].
  destruct (arrays_closed_at _ _ Hclosed Hn) as (r & Hr & Hne). rewrite Hr.
  destruct (blockEnd_result _ _ _ _ Hr) as [|[Hb _]]; [contradiction|].
  assert (len (skipn (Z.to_nat i) data) = len data - i)
    by (unfold len; rewrite length_skipn; unfold len in *; lia).
  apply IH; lia.
Qed.

Lemma len_keys_positive (keys : list bytes) : keys <> [] -> 0 < len keys.
Proof. destruct keys; [contradiction | intros _; rewrite len_cons; pose proof (len_nonneg _ keys); lia]. Qed.

Lemma searchKeys_returns (data : bytes) (keys : list bytes) :
  keys <> [] -> arrays_closed data = true ->
  exists r : Z, searchKeys (S (List.length data)) data keys = Done r.
Proof.
  intros Hkeys Hclosed. pose proof (len_keys_positive _ Hkeys).
  apply searchKeys_loop_returns; [exact Hclosed | | lia | unfold len; lia].
  pose proof (len_nonneg _ data); lia.
Qed.

(** X15.  When every opening bracket of the buffer starts a block that
    [blockEnd] can close, the key search for a non-empty path returns
    within one iteration per byte, without a panic: either [-1] or an
    index of the buffer that is one past a colon. *)
Theorem searchKeys_returns_when_arrays_closed :
  forall (data : bytes) (keys : list bytes),
    keys <> [] -> arrays_closed data = true ->
    exists r : Z,
      searchKeys (S (List.length data)) data keys = Done r /\
      (r = -1 \/ (1 <= r <= len data /\ index data (r - 1) = Done colon)).
Proof.
  intros data keys Hkeys Hclosed.
  destruct (searchKeys_returns data keys Hkeys Hclosed) as [r Hr].
  exists r; split; [exact Hr | now apply (searchKeys_result _ _ _ _ Hr)].
Qed.

Lemma searchKeys_returns_when_arrays_closed_witness :
  exists r : Z,
    searchKeys 12 (bs "{" ++ quoted "a" ++ bs ":[1,2]}") [bs "b"] = Done r /\
    (r = -1 \/
     (1 <= r <= 11 /\
      index (bs "{" ++ quoted "a" ++ bs ":[1,2]}") (r - 1) = Done colon)).
Proof.
  apply (searchKeys_returns_when_arrays_closed
           (bs "{" ++ quoted "a" ++ bs ":[1,2]}") [bs "b"]);
    [discriminate | reflexivity].
Defined.

(** ** Path resolution on every buffer *)

Lemma len_skipn (d : bytes) (a : Z) :
  0 <= a <= len d -> len (skipn (Z.to_nat a) d) = len d - a.
Proof. intros Ha. unfold len in *. rewrite length_skipn. lia. Qed.

(** [Get] from the offset the key search gave it. *)
Lemma Get_unfold (fuel : nat) (data : bytes) (keys : list bytes) :
  Get fuel data keys =
  (offset <- (if 0 <? len keys then searchKeys fuel data keys else Done 0) ;;
   if (0 <? len keys) && (offset =? -1)
   then Done (None, NotExist, -1, Some KeyPathNotFoundError)
   else
     tail <- slice_from data offset ;;
     if nextToken tail =? -1
     then Done (None, Unknown, -1, Some genericMalformedJson)
     else
       tail' <- slice_from data (offset + nextToken tail) ;;
       r <- GetValue tail' ;;
       let '(value, dataType, valueOffset, err) := r in
       match err with
       | Some e => Done (None, Unknown, -1, Some e)
       | None => Done (value, dataType, offset + nextToken tail + valueOffset, None)
       end).
Proof. reflexivity. Qed.

(** The part of [Get] that follows the key search, at a given offset. *)
Lemma Get_at_offset (data : bytes) (offset : Z) :
  0 <= offset <= len data ->
  exists (v : slice) (t : ValueType) (off : Z) (e : option error),
    (tail <- slice_from data offset ;;
     if nextToken tail =? -1
     then Done (None, Unknown, -1, Some genericMalformedJson)
     else
       tail' <- slice_from data (offset + nextToken tail) ;;
       r <- GetValue tail' ;;
       let '(value, dataType, valueOffset, err) := r in
       match err with
       | Some e => Done (None, Unknown, -1, Some e)
       | None => Done (value, dataType, offset + nextToken tail + valueOffset, None)
       end) = Done (v, t, off, e) /\
    match e with
    | Some err => v = None /\ t = Unknown /\ off = -1 /\ err <> KeyPathNotFoundError
    | None =>
        is_extracted_type t = true /\ offset + 1 <= off <= len data /\
        exists start : Z,
          offset <= start < off /\
          GetValue (skipn (Z.to_nat start) data) = Done (v, t, off - start, None)
    end.
Proof.
  intros Hoff. rewrite slice_from_in_range by exact Hoff.
  pose proof (len_skipn data offset Hoff) as Htail.
  set (tail := skipn (Z.to_nat offset) data) in *.
  destruct (Z.eqb_spec (nextToken tail) (-1)) as [|Hnt].
  { do 4 eexists; split; [reflexivity|]. repeat split; discriminate. }
  destruct (nextToken_found _ Hnt) as (k & Hk & (x & Hx & _) & _).
  assert (k < List.length tail)%nat by (apply nth_error_Some; congruence).
  assert (Hskip : 0 <= nextToken tail < len tail) by (unfold len; lia).
  rewrite slice_from_in_range by lia.
  pose proof (len_skipn data (offset + nextToken tail) ltac:(lia)) as Htail'.
  set (tail' := skipn (Z.to_nat (offset + nextToken tail)) data) in *.
  destruct (GetValue_returns_shape tail') as (v & t & vo & e & Hg & Hshape).
  rewrite Hg. destruct e as [err|].
  - destruct Hshape as (_ & _ & _).
    do 4 eexists; split; [reflexivity|]. repeat split.
    intros ->. exact (GetValue_error_cause _ _ _ _ _ Hg).
  - destruct Hshape as (Ht & Hvo).
    do 4 eexists; split; [reflexivity|]. split; [exact Ht|]. split; [lia|].
    exists (offset + nextToken tail). split; [lia|].
    fold tail'. rewrite Hg. do 3 f_equal. lia.
Qed.

Lemma Get_result_shape (fuel : nat) (data : bytes) (keys : list bytes)
  (v : slice) (t : ValueType) (off : Z) (e : option error) :
  Get fuel data keys = Done (v, t, off, e) ->
  match e with
  | Some err =>
      v = None /\ off = -1 /\
      ((t = NotExist /\ err = KeyPathNotFoundError /\ keys <> []) \/
       (t = Unknown /\ err <> KeyPathNotFoundError))
  | None =>
      is_extracted_type t = true /\ 1 <= off <= len data /\
      exists start : Z,
        0 <= start < off /\
        GetValue (skipn (Z.to_nat start) data) = Done (v, t, off - start, None)
  end.
Proof.
  rewrite Get_unfold. intros H.
  assert (Hfrom : forall offset : Z, 0 <= offset <= len data ->
    (tail <- slice_from data offset ;;
     if nextToken tail =? -1
     then Done (None, Unknown, -1, Some genericMalformedJson)
     else
       tail' <- slice_from data (offset + nextToken tail) ;;
       r <- GetValue tail' ;;
       let '(value, dataType, valueOffset, err) := r in
       match err with
       | Some e => Done (None, Unknown, -1, Some e)
       | None => Done (value, dataType, offset + nextToken tail + valueOffset, None)
       end) = Done (v, t, off, e) ->
    match e with
    | Some err =>
        v = None /\ off = -1 /\
        ((t = NotExist /\ err = KeyPathNotFoundError /\ keys <> []) \/
         (t = Unknown /\ err <> KeyPathNotFoundError))
    | None =>
        is_extracted_type t = true /\ 1 <= off <= len data /\
        exists start : Z,
          0 <= start < off /\
          GetValue (skipn (Z.to_nat start) data) = Done (v, t, off - start, None)
    end).
  { intros offset Hoff Hrun.
    destruct (Get_at_offset data offset Hoff) as (v' & t' & off' & e' & Hrun' & Hshape).
    rewrite Hrun' in Hrun. injection Hrun as -> -> -> ->.
    destruct e as [err|].
    - destruct Hshape as (-> & -> & -> & Hne). auto.
    - destruct Hshape as (Ht & Hb & start & Hs & Hg). split; [exact Ht|].
      split; [lia|]. exists start; split; [lia | exact Hg]. }
  destruct (0 <? len keys) eqn:Ek.
  - destruct (searchKeys fuel data keys) as [offset| |] eqn:Es; try discriminate.
    rewrite andb_true_l in H. destruct (Z.eqb_spec offset (-1)) as [->|Hne].
    + injection H as <- <- <- <-. repeat split. left; repeat split.
      intros ->; discriminate Ek.
    + destruct (searchKeys_result _ _ _ _ Es) as [|[Hb _]]; [contradiction|].
      apply (Hfrom offset); [lia | exact H].
  - rewrite andb_false_l in H. apply (Hfrom 0); [pose proof (len_nonneg _ data); lia|].
    exact H.
Qed.

(** X14.  Whatever [Get] returns, an error comes with a nil slice and the
    offset [-1]: [KeyPathNotFoundError] with the type [NotExist], when the
    path is not empty, and every other error with the type [Unknown].
    Without an error the type is one of the six value types and the offset
    lies between 1 and the length of the buffer. *)
Theorem Get_error_or_value :
  forall (fuel : nat) (data : bytes) (keys : list bytes)
         (v : slice) (t : ValueType) (off : Z) (e : option error),
    Get fuel data keys = Done (v, t, off, e) ->
    match e with
    | Some err =>
        v = None /\ off = -1 /\
        ((t = NotExist /\ err = KeyPathNotFoundError /\ keys <> []) \/
         (t = Unknown /\ err <> KeyPathNotFoundError))
    | None => is_extracted_type t = true /\ 1 <= off <= len data
    end.
Proof.
  intros fuel data keys v t off e H.
  pose proof (Get_result_shape _ _ _ _ _ _ _ H) as Hshape.
  destruct e; [exact Hshape | destruct Hshape as (Ht & Hb & _); auto].
Qed.

Lemma Get_error_or_value_witness :
  (is_extracted_type String = true /\ 1 <= 8 <= 10) /\
  ((None : slice) = None /\ -1 = -1 /\
   ((NotExist = NotExist /\ KeyPathNotFoundError = KeyPathNotFoundError /\
     [bs "b"] <> []) \/
    (NotExist = Unknown /\ KeyPathNotFoundError <> KeyPathNotFoundError))).
Proof.
  split.
  - apply (Get_error_or_value 5 (bs "{" ++ quoted "a" ++ bs ":" ++ quoted "x" ++ bs "} ")
             [bs "a"] (Some (bs "x")) String 8 None).
    reflexivity.
  - apply (Get_error_or_value 5 (bs "{" ++ quoted "a" ++ bs ":1}")
             [bs "b"] None NotExist (-1) (Some KeyPathNotFoundError)).
    reflexivity.
Defined.

Lemma Get_returns_in_budget :
  forall (data : bytes) (keys : list bytes),
    keys = [] \/ arrays_closed data = true ->
    exists r : extraction, Get (S (List.length data)) data keys = Done r.
Proof.
  intros data keys Hcase. rewrite Get_unfold.
  assert (Hfrom : forall offset : Z, 0 <= offset <= len data ->
    exists r : extraction,
      (tail <- slice_from data offset ;;
       if nextToken tail =? -1
       then Done (None, Unknown, -1, Some genericMalformedJson)
       else
         tail' <- slice_from data (offset + nextToken tail) ;;
         r <- GetValue tail' ;;
         let '(value, dataType, valueOffset, err) := r in
         match err with
         | Some e => Done (None, Unknown, -1, Some e)
         | None => Done (value, dataType, offset + nextToken tail + valueOffset, None)
         end) = Done r).
  { intros offset Hoff.
    destruct (Get_at_offset data offset Hoff) as (v & t & off & e & Hrun & _).
    rewrite Hrun; eauto. }
  pose proof (len_nonneg _ data) as Hpos.
  destruct (0 <? len keys) eqn:Ek.
  - destruct Hcase as [-> | Hclosed]; [discriminate Ek|].
    assert (Hkeys : keys <> []) by (intros ->; discriminate Ek).
    destruct (searchKeys_returns data keys Hkeys Hclosed) as [offset Hs]. rewrite Hs.
    rewrite andb_true_l. destruct (Z.eqb_spec offset (-1)) as [|Hne]; [eauto|].
    destruct (searchKeys_result _ _ _ _ Hs) as [|[Hb _]]; [contradiction|].
    apply Hfrom; lia.
  - rewrite andb_false_l. apply Hfrom; lia.
Qed.

(** X16.  [Get] returns, without a panic, on every buffer when the path is
    empty, and on every buffer whose opening brackets all start a block
    that [blockEnd] can close when it is not; one iteration of the key
    search per byte, and one more, is enough. *)
Theorem Get_returns :
  forall (data : bytes) (keys : list bytes),
    keys = [] \/ arrays_closed data = true ->
    exists r : extraction, Get (S (List.length data)) data keys = Done r.
Proof. exact Get_returns_in_budget. Qed.

Lemma Get_returns_witness :
  exists r : extraction,
    Get 12 (bs "{" ++ quoted "a" ++ bs ":[1,2]}") [bs "a"; bs "b"] = Done r.
Proof.
  apply (Get_returns (bs "{" ++ quoted "a" ++ bs ":[1,2]}") [bs "a"; bs "b"]).
  right; reflexivity.
Defined.

Lemma first_token_unique (data : bytes) (k k' : nat) :
  first_token_at data k -> first_token_at data k' -> k = k'.
Proof.
  intros [(c & Hc & Ht) Hbefore] [(c' & Hc' & Ht') Hbefore'].
  destruct (Nat.lt_trichotomy k k') as [Hlt | [-> | Hgt]]; [|reflexivity|].
  - specialize (Hbefore' k Hlt). rewrite (nth_error_nth_byte _ _ _ Hc) in Hbefore'.
    congruence.
  - specialize (Hbefore k' Hgt). rewrite (nth_error_nth_byte _ _ _ Hc') in Hbefore.
    congruence.
Qed.

Lemma nextToken_at_first_token (data : bytes) (k : nat) :
  first_token_at data k -> nextToken data = Z.of_nat k.
Proof.
  intros Hk. destruct (Z.eq_dec (nextToken data) (-1)) as [E|E].
  - destruct Hk as [(c & Hc & Ht) _].
    pose proof (nextToken_range_absent data 0 E ltac:(lia)) as Hall.
    rewrite (forallb_nth_error _ _ _ _ _ Hall Hc) in Ht. discriminate.
  - destruct (nextToken_found data E) as (k' & Hr & Hk').
    now rewrite (first_token_unique _ _ _ Hk Hk').
Qed.

Lemma first_token_after_whitespace (ws data : bytes) (k : nat) :
  forallb is_whitespace ws = true -> first_token_at data k ->
  first_token_at (ws ++ data) (List.length ws + k).
Proof.
  intros Hws [(c & Hc & Ht) Hbefore]. split.
  - exists c; split; [|exact Ht].
    rewrite nth_error_app2 by lia. now replace (List.length ws + k - List.length ws)%nat with k by lia.
  - intros j Hj. destruct (Nat.lt_ge_cases j (List.length ws)) as [Hlt|Hge].
    + rewrite app_nth1 by exact Hlt.
      destruct (nth_error ws j) as [x|] eqn:Ex; [|apply nth_error_None in Ex; lia].
      rewrite (nth_error_nth_byte _ _ _ Ex).
      exact (forallb_nth_error _ _ _ _ _ Hws Ex).
    + rewrite app_nth2 by exact Hge. apply Hbefore; lia.
Qed.

(** X13.  With no keys, whitespace in front of a buffer changes nothing
    but the offset: [Get] returns the same slice, type and error, and a
    successful offset moves by the length of the whitespace. *)
Theorem Get_skips_leading_whitespace :
  forall (fuel : nat) (ws data : bytes),
    forallb is_whitespace ws = true ->
    Get fuel (ws ++ data) [] = shift_offset (len ws) (Get fuel data []).
Proof.
  intros fuel ws data Hws. rewrite !Get_unfold.
  change (0 <? len (@nil bytes)) with false. cbv iota. rewrite !andb_false_l.
  rewrite (slice_from_in_range (ws ++ data) 0) by (split; [lia | apply len_nonneg]).
  rewrite (slice_from_in_range data 0) by (split; [lia | apply len_nonneg]).
  change (skipn (Z.to_nat 0) (ws ++ data)) with (ws ++ data).
  change (skipn (Z.to_nat 0) data) with data.
  destruct (Z.eqb_spec (nextToken data) (-1)) as [Hnone|Hsome].
  - assert (Hall : forallb is_whitespace (ws ++ data) = true).
    { rewrite forallb_app, Hws. apply (nextToken_range_absent data 0 Hnone); lia. }
    assert (Hnt : nextToken (ws ++ data) = -1)
      by apply (nextToken_range_whitespace _ 0 Hall).
    rewrite Hnt. reflexivity.
  - destruct (nextToken_found _ Hsome) as (k & Hk & Hfirst).
    pose proof (first_token_after_whitespace ws data k Hws Hfirst) as Hfirst'.
    rewrite (nextToken_at_first_token _ _ Hfirst'), Hk.
    destruct Hfirst as [(c & Hc & _) _].
    assert (k < List.length data)%nat by (apply nth_error_Some; congruence).
    destruct (Z.eqb_spec (Z.of_nat (List.length ws + k)) (-1)) as [|_]; [lia|].
    rewrite (slice_from_in_range (ws ++ data))
      by (unfold len; rewrite length_app; lia).
    rewrite (slice_from_in_range data) by (unfold len; lia).
    replace (Z.to_nat (0 + Z.of_nat (List.length ws + k)))
      with (List.length ws + k)%nat by lia.
    replace (Z.to_nat (0 + Z.of_nat k)) with k by lia.
    rewrite skipn_app.
    replace (List.length ws + k - List.length ws)%nat with k by lia.
    rewrite skipn_all2 by lia. simpl app.
    destruct (GetValue (skipn k data)) as [[[[v t] vo] [e|]]| |]; simpl;
      try reflexivity.
    do 3 f_equal. unfold len. lia.
Qed.

Lemma Get_skips_leading_whitespace_witness :
  Get 0 (bs "  " ++ bs "[1] ") [] = shift_offset 2 (Get 0 (bs "[1] ") []).
Proof.
  apply (Get_skips_leading_whitespace 0 (bs "  ") (bs "[1] ")). reflexivity.
Defined.

Lemma searchKeys_loop_no_quote (fuel : nat) (data : bytes) (keys : list bytes) :
  forallb (fun x : byte => negb (Byte.eqb x quote)) data = true ->
  forall (i level keyLevel r : Z),
    searchKeys_loop fuel data keys i level keyLevel = Done r -> r = -1.
Proof.
  intros Hq. induction fuel as [|fuel IH]; intros i level keyLevel r H;
    [discriminate|].
  rewrite searchKeys_loop_unfold in H.
  destruct (negb (i <? len data)); [now injection H as <-|].
  destruct (index data i) as [c| |] eqn:Ec; try discriminate.
  apply index_done_range in Ec as [_ Hn].
  pose proof (forallb_nth_error _ _ _ _ _ Hq Hn) as Hc. simpl in Hc.
  apply negb_true_iff in Hc. rewrite Hc in H.
  same_branch H; eauto.
Qed.

(** X17.  A buffer without a quote holds no key: for every non-empty path,
    when its opening brackets all start a block that [blockEnd] can close,
    [Get] returns a nil slice, the type [NotExist], the offset [-1] and
    [KeyPathNotFoundError].  The empty buffer is such a buffer. *)
Theorem Get_no_key_without_quote :
  forall (data : bytes) (keys : list bytes),
    keys <> [] ->
    forallb (fun x : byte => negb (Byte.eqb x quote)) data = true ->
    arrays_closed data = true ->
    Get (S (List.length data)) data keys =
    Done (None, NotExist, -1, Some KeyPathNotFoundError).
Proof.
  intros data keys Hkeys Hq Hclosed. rewrite Get_unfold.
  pose proof (len_keys_positive _ Hkeys) as Hlen.
  destruct (Z.ltb_spec 0 (len keys)) as [_|]; [|lia].
  destruct (searchKeys_returns data keys Hkeys Hclosed) as [r Hr]. rewrite Hr.
  now rewrite (searchKeys_loop_no_quote _ _ _ Hq _ _ _ _ Hr).
Qed.

Lemma Get_no_key_without_quote_witness :
  Get 1 [] [bs "a"] = Done (None, NotExist, -1, Some KeyPathNotFoundError) /\
  Get 8 (bs "{a:[1]}") [bs "a"] = Done (None, NotExist, -1, Some KeyPathNotFoundError).
Proof.
  split.
  - apply (Get_no_key_without_quote [] [bs "a"]); [discriminate | reflexivity | reflexivity].
  - apply (Get_no_key_without_quote (bs "{a:[1]}") [bs "a"]);
      [discriminate | reflexivity | reflexivity].
Defined.

(** ** Looking up the first member *)

Lemma index_app_right (a : bytes) (x : byte) (b : bytes) (i : Z) :
  i = len a -> index (a ++ x :: b) i = Done x.
Proof.
  intros ->. unfold len. rewrite index_nth_error.
  rewrite nth_error_app2 by lia. now rewrite Nat.sub_diag.
Qed.

Lemma slice_from_app (a b : bytes) (i : Z) :
  i = len a -> slice_from (a ++ b) i = Done b.
Proof.
  intros ->. rewrite slice_from_in_range
    by (unfold len; rewrite length_app; lia).
  unfold len. rewrite Nat2Z.id, skipn_app, Nat.sub_diag, skipn_all. reflexivity.
Qed.

Lemma slice_between_app (a k b : bytes) (i j : Z) :
  i = len a -> j = len a + len k -> slice_between (a ++ k ++ b) i j = Done k.
Proof.
  intros -> ->. rewrite slice_between_in_range
    by (unfold len; rewrite ?length_app; lia).
  unfold len. rewrite Nat2Z.id, skipn_app, Nat.sub_diag, skipn_all. simpl app.
  replace (Z.to_nat (Z.of_nat (List.length a) + Z.of_nat (List.length k)
                     - Z.of_nat (List.length a))) with (List.length k) by lia.
  rewrite firstn_app, Nat.sub_diag, firstn_all. simpl. now rewrite app_nil_r.
Qed.

Lemma bytes_eqb_refl (a : bytes) : bytes_eqb a a = true.
Proof. now apply bytes_eqb_eq. Qed.

Lemma searchKeys_first_member (fuel : nat) (key rest : bytes) :
  plain_text key = true ->
  searchKeys (2 + fuel) (lbrace :: quote :: key ++ quote :: colon :: rest) [key] =
  Done (len key + 4).
Proof.
  intros Hkey. unfold searchKeys.
  set (data := lbrace :: quote :: key ++ quote :: colon :: rest).
  pose proof (len_nonneg _ key) as Hpos.
  assert (Hlen : len data = len key + 4 + len rest).
  { unfold data, len. simpl List.length. rewrite length_app. simpl List.length. lia. }
  pose proof (len_nonneg _ rest) as Hrest.
  change (2 + fuel)%nat with (S (S fuel)).
  rewrite searchKeys_loop_unfold.
  destruct (Z.ltb_spec 0 (len data)) as [_|]; [|lia]. simpl negb. cbv iota.
  change (index data 0) with (Done lbrace). cbv iota.
  change (Byte.eqb lbrace quote) with false.
  change (Byte.eqb lbrace lbrace) with true. cbv iota.
  rewrite searchKeys_loop_unfold.
  destruct (Z.ltb_spec (0 + 1) (len data)) as [_|]; [|lia]. simpl negb. cbv iota.
  change (index data (0 + 1)) with (Done quote). cbv iota.
  change (Byte.eqb quote quote) with true. cbv iota.
  assert (Htail : slice_from data (0 + 1 + 1) = Done (key ++ quote :: colon :: rest)).
  { apply (slice_from_app [lbrace; quote]). reflexivity. }
  rewrite Htail, (stringEnd_plain key (colon :: rest) Hkey).
  destruct (Z.eqb_spec (len key + 1) (-1)) as [|_]; [lia|].
  assert (Hd2 : data = (lbrace :: quote :: key ++ [quote]) ++ colon :: rest).
  { unfold data. simpl. now rewrite <- app_assoc. }
  assert (Hpre : len (lbrace :: quote :: key ++ [quote]) = len key + 3).
  { unfold len. simpl List.length. rewrite length_app. simpl List.length. lia. }
  assert (Htail' : slice_from data (0 + 1 + 1 + (len key + 1)) = Done (colon :: rest)).
  { rewrite Hd2. apply slice_from_app. lia. }
  rewrite Htail'. change (nextToken (colon :: rest)) with 0.
  change (0 =? -1) with false. cbv iota.
  assert (Hcolon : index data (0 + 1 + 1 + (len key + 1) + 0) = Done colon).
  { rewrite Hd2. apply index_app_right. lia. }
  rewrite Hcolon. cbv iota. change (Byte.eqb colon colon) with true. cbv iota.
  assert (Hslice : slice_between data (0 + 1 + 1) (0 + 1 + 1 + (len key + 1) - 1) = Done key).
  { unfold data.
    apply (slice_between_app [lbrace; quote] key (quote :: colon :: rest));
      unfold len; simpl List.length; lia. }
  rewrite Hslice. cbv iota.
  change (0 =? 0 + 1 - 1) with true. cbv iota.
  change (index [key] (0 + 1 - 1)) with (Done key). cbv iota.
  rewrite bytes_eqb_refl. change (0 + 1 =? len [key]) with true. cbv iota.
  f_equal. lia.
Qed.

(** X18.  The first member of an object is found by its key: for a key
    without quotes and backslashes, [Get] on a brace, the quoted key, a
    colon and any rest returns what [Get] with no keys returns on the rest,
    a successful offset moved by the length of what precedes the rest. *)
Theorem Get_first_member :
  forall (fuel : nat) (key rest : bytes),
    plain_text key = true ->
    Get (2 + fuel) (lbrace :: quote :: key ++ quote :: colon :: rest) [key] =
    shift_offset (len key + 4) (Get 0 rest []).
Proof.
  intros fuel key rest Hkey. rewrite !Get_unfold.
  change (0 <? len (@nil bytes)) with false.
  change (0 <? len [key]) with true. cbv iota.
  rewrite (searchKeys_first_member fuel key rest Hkey).
  rewrite andb_true_l, andb_false_l.
  pose proof (len_nonneg _ key) as Hpos.
  destruct (Z.eqb_spec (len key + 4) (-1)) as [|_]; [lia|].
  assert (Htail : slice_from (lbrace :: quote :: key ++ quote :: colon :: rest)
                    (len key + 4) = Done rest).
  { replace (lbrace :: quote :: key ++ quote :: colon :: rest)
      with ((lbrace :: quote :: key ++ [quote; colon]) ++ rest)
      by (simpl; now rewrite <- app_assoc).
    apply slice_from_app. unfold len. simpl List.length. rewrite length_app.
    simpl List.length. lia. }
  rewrite Htail.
  rewrite (slice_from_in_range rest 0) by (split; [lia | apply len_nonneg]).
  change (skipn (Z.to_nat 0) rest) with rest.
  destruct (Z.eqb_spec (nextToken rest) (-1)) as [|Hnt]; [reflexivity|].
  destruct (nextToken_found _ Hnt) as (k & Hk & (x & Hx & _) & _).
  assert (k < List.length rest)%nat by (apply nth_error_Some; congruence).
  assert (Hsame : slice_from (lbrace :: quote :: key ++ quote :: colon :: rest)
                    (len key + 4 + nextToken rest) =
                  slice_from rest (0 + nextToken rest)).
  { replace (lbrace :: quote :: key ++ quote :: colon :: rest)
      with ((lbrace :: quote :: key ++ [quote; colon]) ++ rest)
      by (simpl; now rewrite <- app_assoc).
    assert (Hpre : List.length (lbrace :: quote :: key ++ [quote; colon])
                   = (List.length key + 4)%nat)
      by (simpl List.length; rewrite length_app; simpl List.length; lia).
    rewrite !slice_from_in_range
      by (unfold len in *; rewrite ?length_app, ?Hpre; lia).
    f_equal. unfold len.
    replace (Z.to_nat (Z.of_nat (List.length key) + 4 + nextToken rest))
      with (List.length (lbrace :: quote :: key ++ [quote; colon]) + k)%nat
      by (rewrite Hpre; lia).
    rewrite skipn_app, Nat.add_comm, Nat.add_sub.
    rewrite skipn_all2 by lia. simpl app. f_equal. lia. }
  rewrite Hsame.
  destruct (slice_from rest (0 + nextToken rest)) as [tail| |]; try reflexivity.
  destruct (GetValue tail) as [[[[v t] vo] [e|]]| |]; simpl; try reflexivity.
  do 3 f_equal. lia.
Qed.

Lemma Get_first_member_witness :
  Get 2 (lbrace :: quote :: bs "id" ++ quote :: colon :: bs " 7, x") [bs "id"] =
  shift_offset 6 (Get 0 (bs " 7, x") []).
Proof.
  apply (Get_first_member 0 (bs "id") (bs " 7, x")). reflexivity.
Defined.

(** ** Array iteration on every buffer *)

Lemma whitespace_is_no_symbol (c : byte) :
  is_whitespace c = true ->
  Byte.eqb c quote = false /\ Byte.eqb c lbracket = false /\ Byte.eqb c rbracket = false.
Proof. intros H; destruct c; try discriminate H; repeat split; reflexivity. Qed.

Lemma len_app_lt (pre x : bytes) (c : byte) : len pre < len (pre ++ c :: x).
Proof. unfold len. rewrite length_app. simpl List.length. lia. Qed.

Lemma blockEnd_loop_whitespace_close (ws : bytes) :
  forallb is_whitespace ws = true ->
  forall (fuel : nat) (pre rest : bytes),
    (List.length ws < fuel)%nat ->
    blockEnd_loop fuel (pre ++ ws ++ rbracket :: rest) lbracket rbracket (len pre) 1 =
    Done (len pre + len ws + 1).
Proof.
  induction ws as [|w ws IH]; intros Hws fuel pre rest Hfuel;
    (destruct fuel as [|fuel]; [simpl in Hfuel; lia|]);
    rewrite blockEnd_loop_unfold.
  - simpl app. pose proof (len_app_lt pre rest rbracket) as Hlt.
    destruct (Z.ltb_spec (len pre) (len (pre ++ rbracket :: rest))) as [_|Hge]; [|lia].
    simpl negb. cbv iota.
    rewrite (index_app_right pre rbracket rest) by reflexivity. cbv iota.
    change (Byte.eqb rbracket quote) with false.
    change (Byte.eqb rbracket lbracket) with false.
    change (Byte.eqb rbracket rbracket) with true. cbv iota.
    change (1 - 1 =? 0) with true. cbv iota. f_equal. unfold len; simpl; lia.
  - simpl in Hws. apply andb_true_iff in Hws as [Hw Hws].
    change ((w :: ws) ++ rbracket :: rest) with (w :: ws ++ rbracket :: rest).
    pose proof (len_app_lt pre (ws ++ rbracket :: rest) w) as Hlt.
    destruct (Z.ltb_spec (len pre) (len (pre ++ w :: ws ++ rbracket :: rest)))
      as [_|Hge]; [|lia].
    simpl negb. cbv iota.
    rewrite (index_app_right pre w _) by reflexivity. cbv iota.
    destruct (whitespace_is_no_symbol w Hw) as (-> & -> & ->).
    replace (pre ++ w :: ws ++ rbracket :: rest)
      with ((pre ++ [w]) ++ ws ++ rbracket :: rest)
      by (now rewrite <- app_assoc).
    replace (len pre + 1) with (len (pre ++ [w]))
      by (unfold len; rewrite length_app; simpl; lia).
    rewrite (IH Hws fuel (pre ++ [w]) rest) by (simpl in Hfuel; lia).
    f_equal. unfold len. rewrite length_app. simpl List.length. lia.
Qed.

Lemma blockEnd_empty_array (ws rest : bytes) :
  forallb is_whitespace ws = true ->
  blockEnd (lbracket :: ws ++ rbracket :: rest) lbracket rbracket = Done (len ws + 2).
Proof.
  intros Hws. unfold blockEnd. rewrite blockEnd_loop_unfold.
  pose proof (len_nonneg _ (ws ++ rbracket :: rest)).
  destruct (Z.ltb_spec 0 (len (lbracket :: ws ++ rbracket :: rest))) as [_|Hge];
    [|rewrite len_cons in Hge; lia].
  simpl negb. cbv iota.
  change (index (lbracket :: ws ++ rbracket :: rest) 0) with (Done lbracket). cbv iota.
  change (Byte.eqb lbracket quote) with false.
  change (Byte.eqb lbracket lbracket) with true. cbv iota.
  rewrite (blockEnd_loop_whitespace_close ws Hws _ [lbracket] rest)
    by (simpl List.length; rewrite length_app; simpl List.length; lia).
  f_equal. unfold len. simpl List.length. lia.
Qed.

Lemma ArrayEach_loop_unfold (fuel : nat) (arrayValue : bytes)
  (base finish offsetInArray : Z) (visits : list visit) :
  ArrayEach_loop (S fuel) arrayValue base finish offsetInArray visits =
  if negb (offsetInArray <? finish) then Done (visits, None)
  else
    tail <- slice_from arrayValue offsetInArray ;;
    r <- GetValue tail ;;
    let '(elementValue, elementType, elementOffset, err) := r in
    if ValueType_eqb elementType NotExist then Done (visits, None)
    else
      match err with
      | Some _ =>
          Done (visits ++ [(elementValue, elementType,
                            base + (offsetInArray + elementOffset), err)], None)
      | None =>
          tail' <- slice_from arrayValue (offsetInArray + elementOffset) ;;
          if nextArrayElement tail' =? -1
          then Done (visits ++ [(elementValue, elementType,
                                 base + (offsetInArray + elementOffset), err)],
                     Some MalformedArrayError)
          else ArrayEach_loop fuel arrayValue base finish
                 (offsetInArray + elementOffset + nextArrayElement tail')
                 (visits ++ [(elementValue, elementType,
                              base + (offsetInArray + elementOffset), err)])
      end.
Proof. reflexivity. Qed.

(** X19.  An array that holds nothing but whitespace is iterated without a
    call of the visitor and without an error, whatever follows it in the
    buffer. *)
Theorem ArrayEach_empty_array :
  forall (fuel : nat) (ws rest : bytes),
    forallb is_whitespace ws = true ->
    ArrayEach (S fuel) (lbracket :: ws ++ rbracket :: rest) [] = Done ([], None).
Proof.
  intros fuel ws rest Hws. unfold ArrayEach. rewrite Get_unfold.
  change (0 <? len (@nil bytes)) with false. cbv iota. rewrite andb_false_l.
  set (data := lbracket :: ws ++ rbracket :: rest).
  pose proof (len_nonneg _ ws) as Hpos. pose proof (len_nonneg _ rest) as Hrest.
  assert (Hlen : len data = len ws + 2 + len rest).
  { unfold data, len. simpl List.length. rewrite length_app. simpl List.length. lia. }
  rewrite (slice_from_in_range data 0) by lia.
  change (skipn (Z.to_nat 0) data) with data.
  change (nextToken data) with 0. change (0 =? -1) with false. cbv iota.
  rewrite (slice_from_in_range data (0 + 0)) by lia.
  change (skipn (Z.to_nat (0 + 0)) data) with data.
  unfold data at 1. rewrite GetValue_head. cbv zeta. fold data.
  change (Byte.eqb lbracket quote) with false.
  change (Byte.eqb lbracket lbracket) with true. cbv iota.
  unfold data at 1. rewrite (blockEnd_empty_array ws rest Hws). fold data.
  destruct (Z.eqb_spec (len ws + 2) (-1)) as [|_]; [lia|].
  rewrite slice_to_in_range by lia.
  assert (Hvalue : firstn (Z.to_nat (len ws + 2)) data = lbracket :: ws ++ [rbracket]).
  { unfold data, len. replace (Z.to_nat (Z.of_nat (List.length ws) + 2))
      with (S (List.length ws + 1)) by lia.
    simpl firstn. f_equal. rewrite firstn_app.
    replace (List.length ws + 1 - List.length ws)%nat with 1%nat by lia.
    rewrite firstn_all2 by lia. reflexivity. }
  rewrite Hvalue. cbv iota beta.
  change (ValueType_eqb Array Array) with true. simpl negb. cbv iota.
  unfold contents.
  assert (Hav : len (lbracket :: ws ++ [rbracket]) = len ws + 2).
  { unfold len. simpl List.length. rewrite length_app. simpl List.length. lia. }
  change (lbracket :: ws ++ [rbracket]) with ([lbracket] ++ ws ++ [rbracket]) at 1.
  rewrite (slice_from_app [lbracket] (ws ++ [rbracket]) 1) by reflexivity.
  assert (Hnt : nextToken (ws ++ [rbracket]) = len ws).
  { apply nextToken_at_first_token.
    replace (List.length ws) with (List.length ws + 0)%nat by lia.
    apply first_token_after_whitespace; [exact Hws|].
    split; [exists rbracket; split; reflexivity | intros k Hk; lia]. }
  rewrite Hnt. destruct (Z.eqb_spec (len ws) (-1)) as [|_]; [lia|].
  rewrite Hav, ArrayEach_loop_unfold.
  destruct (Z.ltb_spec (1 + len ws) (len ws + 2 - 1)) as [|_]; [lia|]. reflexivity.
Qed.

Lemma ArrayEach_empty_array_witness :
  ArrayEach 1 (lbracket :: bs "  " ++ rbracket :: bs " tail") [] = Done ([], None).
Proof.
  apply (ArrayEach_empty_array 0 (bs "  ") (bs " tail")). reflexivity.
Defined.

Lemma GetValue_shape_of (data : bytes) (v : slice) (t : ValueType) (off : Z)
  (e : option error) :
  GetValue data = Done (v, t, off, e) ->
  match e with
  | Some _ => v = None /\ t = Unknown /\ off = -1
  | None => is_extracted_type t = true /\ 1 <= off <= len data
  end.
Proof.
  intros H. destruct (GetValue_returns_shape data) as (v' & t' & off' & e' & H' & Hs).
  rewrite H in H'. injection H' as <- <- <- <-. exact Hs.
Qed.

Lemma nextArrayElement_bounds (data : bytes) :
  nextArrayElement data = -1 \/ 1 <= nextArrayElement data < len data.
Proof.
  destruct (Z.eq_dec (nextArrayElement data) (-1)) as [E|E]; [now left | right].
  destruct (nextArrayElement_range_false_shape data 0 E)
    as (ws1 & ws2 & c & rest & -> & H1 & H2 & Hc & Hcomma).
  unfold nextArrayElement.
  rewrite nextArrayElement_range_accepts by assumption.
  unfold len. rewrite !length_app. simpl List.length. rewrite length_app.
  simpl List.length. lia.
Qed.

(** The element loop moves forward in every iteration and reads within
    the array. *)
Lemma ArrayEach_loop_returns (fuel : nat) (arrayValue : bytes) (base : Z) :
  forall (offsetInArray : Z) (visits : list visit),
    0 <= offsetInArray <= len arrayValue ->
    len arrayValue - offsetInArray < Z.of_nat fuel ->
    exists r : list visit * option error,
      ArrayEach_loop fuel arrayValue base (len arrayValue - 1) offsetInArray visits
      = Done r.
Proof.
  induction fuel as [|fuel IH]; intros off visits Hoff Hfuel; [lia|].
  rewrite ArrayEach_loop_unfold.
  destruct (Z.ltb_spec off (len arrayValue - 1)) as [Hlt|Hge]; simpl negb; cbv iota;
    [|eauto].
  rewrite slice_from_in_range by lia.
  pose proof (len_skipn arrayValue off ltac:(lia)) as Htail.
  destruct (GetValue (skipn (Z.to_nat off) arrayValue))
    as [[[[v t] vo] e]| |] eqn:Hg;
    try (destruct (GetValue_returns_shape (skipn (Z.to_nat off) arrayValue))
           as (? & ? & ? & ? & Hg' & _); congruence).
  apply GetValue_shape_of in Hg.
  destruct (ValueType_eqb t NotExist); [eauto|].
  destruct e as [err|]; [eauto|]. destruct Hg as [_ Hvo].
  rewrite slice_from_in_range by lia.
  pose proof (len_skipn arrayValue (off + vo) ltac:(lia)) as Htail'.
  destruct (Z.eqb_spec (nextArrayElement (skipn (Z.to_nat (off + vo)) arrayValue)) (-1))
    as [|Hne]; [eauto|].
  destruct (nextArrayElement_bounds (skipn (Z.to_nat (off + vo)) arrayValue))
    as [|Hb]; [contradiction|].
  apply IH; lia.
Qed.

Lemma ValueType_eqb_eq (a b : ValueType) : ValueType_eqb a b = true -> a = b.
Proof. destruct a, b; simpl; intros H; try discriminate H; reflexivity. Qed.

Lemma Get_array_slice (fuel : nat) (data : bytes) (keys : list bytes)
  (v : slice) (off : Z) :
  Get fuel data keys = Done (v, Array, off, None) ->
  1 <= len (contents v) <= len data.
Proof.
  intros H. destruct (Get_result_shape _ _ _ _ _ _ _ H) as (_ & Hb & start & Hs & Hg).
  destruct (GetValue_success_inv _ _ _ _ Hg) as (c & rest & Hcons & -> & _ & Hblock & Hne).
  destruct (blockEnd_result _ _ _ _ Hblock) as [|[Hbound _]]; [contradiction|].
  pose proof (len_skipn data start ltac:(lia)) as Htail.
  simpl contents. rewrite len_firstn by lia. lia.
Qed.

(** X20.  Once [Get] has returned, [ArrayEach] returns as well, without a
    panic: its own loop needs at most one iteration per byte of the
    buffer. *)
Theorem ArrayEach_returns :
  forall (fuel : nat) (data : bytes) (keys : list bytes) (g : extraction),
    Get fuel data keys = Done g ->
    exists r : list visit * option error,
      ArrayEach (fuel + S (List.length data)) data keys = Done r.
Proof.
  intros fuel data keys [[[v t] off] e] Hget. unfold ArrayEach.
  rewrite (Get_more_fuel _ (S (List.length data)) _ _ _ Hget).
  destruct e as [err|]; [eauto|].
  destruct (ValueType_eqb t Array) eqn:Et; simpl negb; cbv iota; [|eauto].
  apply ValueType_eqb_eq in Et; subst t.
  pose proof (Get_array_slice _ _ _ _ _ Hget) as Hlen.
  rewrite slice_from_in_range by lia.
  pose proof (len_skipn (contents v) 1 ltac:(lia)) as Htail.
  destruct (Z.eqb_spec (nextToken (skipn (Z.to_nat 1) (contents v))) (-1))
    as [|Hnt]; [eauto|].
  destruct (nextToken_found _ Hnt) as (k & Hk & (x & Hx & _) & _).
  assert (k < List.length (skipn (Z.to_nat 1) (contents v)))%nat
    by (apply nth_error_Some; congruence).
  apply ArrayEach_loop_returns; unfold len in *; lia.
Qed.

Lemma ArrayEach_returns_witness :
  exists r : list visit * option error,
    ArrayEach (0 + S (List.length (bs "[1, x, 3]"))) (bs "[1, x, 3]") [] = Done r.
Proof.
  apply (ArrayEach_returns 0 (bs "[1, x, 3]") []
           (Some (bs "[1, x, 3]"), Array, 9, None)).
  reflexivity.
Defined.

Lemma ArrayEach_loop_visits (fuel : nat) (arrayValue : bytes) (base finish : Z) :
  forall (offsetInArray : Z) (visits0 visits : list visit) (e : option error),
    ArrayEach_loop fuel arrayValue base finish offsetInArray visits0 = Done (visits, e) ->
    Forall visit_succeeded visits0 ->
    (e = None \/ e = Some MalformedArrayError) /\
    (visits0 <> [] -> visits <> []) /\
    (Forall visit_succeeded visits \/
     exists (front : list visit) (off : Z) (err : error),
       visits = front ++ [(None, Unknown, off, Some err)] /\
       Forall visit_succeeded front /\ e = None).
Proof.
  induction fuel as [|fuel IH]; intros off visits0 visits e H Hok; [discriminate|].
  rewrite ArrayEach_loop_unfold in H.
  destruct (negb (off <? finish)); [injection H as <- <-; auto|].
  destruct (slice_from arrayValue off) as [tail| |]; try discriminate.
  destruct (GetValue tail) as [[[[v t] vo] err]| |] eqn:Hg; try discriminate.
  apply GetValue_shape_of in Hg.
  destruct (ValueType_eqb t NotExist); [injection H as <- <-; auto|].
  destruct err as [err|].
  - destruct Hg as (-> & -> & ->). injection H as <- <-.
    split; [now left|]. split; [intros _ E; now destruct visits0|].
    right. exists visits0, (base + (off + -1)), err. auto.
  - destruct Hg as [Ht _].
    assert (Hok' : Forall visit_succeeded (visits0 ++ [(v, t, base + (off + vo), None)])).
    { apply Forall_app; split; [exact Hok|]. constructor; [|constructor].
      split; [reflexivity | exact Ht]. }
    destruct (slice_from arrayValue (off + vo)) as [tail'| |]; try discriminate.
    destruct (nextArrayElement tail' =? -1).
    + injection H as <- <-. split; [now right|].
      split; [intros _ E; now destruct visits0 | now left].
    + destruct (IH _ _ _ _ H Hok') as (He & Hne & Hv). split; [exact He|].
      split; [|exact Hv]. intros _. apply Hne. intros E; now destruct visits0.
Qed.

Lemma ArrayEach_visits (fuel : nat) (data : bytes) (keys : list bytes)
  (visits : list visit) (e : option error) :
  ArrayEach fuel data keys = Done (visits, e) ->
  (visits = [] \/ e = None \/ e = Some MalformedArrayError) /\
  (Forall visit_succeeded visits \/
   exists (front : list visit) (off : Z) (err : error),
     visits = front ++ [(None, Unknown, off, Some err)] /\
     Forall visit_succeeded front /\ e = None).
Proof.
  unfold ArrayEach. intros H.
  destruct (Get fuel data keys) as [[[[v t] off] ge]| |]; try discriminate.
  destruct ge as [err|]; [injection H as <- <-; auto|].
  destruct (negb (ValueType_eqb t Array)); [injection H as <- <-; auto|].
  destruct (slice_from (contents v) 1) as [tail| |]; try discriminate.
  destruct (nextToken tail =? -1); [injection H as <- <-; auto|].
  destruct (ArrayEach_loop_visits _ _ _ _ _ _ _ _ H (Forall_nil _)) as (He & _ & Hv).
  split; [right; exact He | exact Hv].
Qed.

(** X21.  Every call [ArrayEach] makes of the visitor is for an extracted
    element, with a value type and no error, except that the last call can
    be for an element that failed: it then carries a nil slice, the type
    [Unknown] and the error, and [ArrayEach] itself returns nil. *)
Theorem ArrayEach_only_last_visit_fails :
  forall (fuel : nat) (data : bytes) (keys : list bytes)
         (visits : list visit) (e : option error),
    ArrayEach fuel data keys = Done (visits, e) ->
    Forall visit_succeeded visits \/
    exists (front : list visit) (off : Z) (err : error),
      visits = front ++ [(None, Unknown, off, Some err)] /\
      Forall visit_succeeded front /\ e = None.
Proof.
  intros fuel data keys visits e H. exact (proj2 (ArrayEach_visits _ _ _ _ _ H)).
Qed.

Lemma ArrayEach_only_last_visit_fails_witness :
  Forall visit_succeeded
    [(Some (bs "1"), Number, 2, None); (None, Unknown, 3, Some (errors_New "Unknown value type"))]
  \/ exists (front : list visit) (off : Z) (err : error),
       [(Some (bs "1"), Number, 2, None);
        (None, Unknown, 3, Some (errors_New "Unknown value type"))]
       = front ++ [(None, Unknown, off, Some err)] /\
       Forall visit_succeeded front /\ (None : option error) = None.
Proof.
  apply (ArrayEach_only_last_visit_fails 3 (bs "[1, x, 3]") []). reflexivity.
Defined.

(** X22.  When [ArrayEach] returns an error other than
    [MalformedArrayError], the visitor was never called: the errors of
    [Get] and [ExpectedArrayError] come before the first element. *)
Theorem ArrayEach_other_errors_before_visits :
  forall (fuel : nat) (data : bytes) (keys : list bytes)
         (visits : list visit) (err : error),
    ArrayEach fuel data keys = Done (visits, Some err) ->
    err <> MalformedArrayError ->
    visits = [].
Proof.
  intros fuel data keys visits err H Hne.
  destruct (proj1 (ArrayEach_visits _ _ _ _ _ H)) as [Hnil | [Habs | Habs]];
    [exact Hnil | discriminate Habs | injection Habs as ->; contradiction].
Qed.

Lemma ArrayEach_other_errors_before_visits_witness :
  ArrayEach 2 (bs "{}") [] = Done ([], Some ExpectedArrayError) /\
  ([] : list visit) = [].
Proof.
  split; [reflexivity|].
  apply (ArrayEach_other_errors_before_visits 2 (bs "{}") [] [] ExpectedArrayError);
    [reflexivity | discriminate].
Defined.

(** ** Typed accessors *)

(** [Get] with no keys on a buffer that starts with its value. *)
Lemma Get_at_value (fuel : nat) (c : byte) (rest : bytes) :
  is_whitespace c = false ->
  Get fuel (c :: rest) [] =
  (r <- GetValue (c :: rest) ;;
   let '(value, dataType, valueOffset, err) := r in
   match err with
   | Some e => Done (None, Unknown, -1, Some e)
   | None => Done (value, dataType, valueOffset, None)
   end).
Proof.
  intros Hc. rewrite Get_unfold.
  change (0 <? len (@nil bytes)) with false. cbv iota. rewrite andb_false_l.
  pose proof (len_nonneg _ (c :: rest)) as Hpos.
  rewrite (slice_from_in_range (c :: rest) 0) by lia.
  change (skipn (Z.to_nat 0) (c :: rest)) with (c :: rest).
  assert (Hnt : nextToken (c :: rest) = 0) by (unfold nextToken; simpl; now rewrite Hc).
  rewrite Hnt. change (0 =? -1) with false. cbv iota.
  rewrite (slice_from_in_range (c :: rest) (0 + 0)) by lia.
  change (skipn (Z.to_nat (0 + 0)) (c :: rest)) with (c :: rest).
  destruct (GetValue (c :: rest)) as [[[[v t] vo] [e|]]| |]; reflexivity.
Qed.

(** X23.  When [Get] resolves a [Boolean], its slice is the token true or
    the token false, and [GetBoolean] returns the matching truth value
    without an error; reading the first byte of the slice cannot panic. *)
Theorem GetBoolean_reads_literal :
  forall (fuel : nat) (data : bytes) (keys : list bytes) (v : slice) (off : Z),
    Get fuel data keys = Done (v, Boolean, off, None) ->
    (v = Some trueLiteral /\ GetBoolean fuel data keys = Done (true, None)) \/
    (v = Some falseLiteral /\ GetBoolean fuel data keys = Done (false, None)).
Proof.
  intros fuel data keys v off H.
  destruct (Get_result_shape _ _ _ _ _ _ _ H) as (_ & _ & start & _ & Hg).
  destruct (GetValue_success_inv _ _ _ _ Hg) as (c & rest & _ & Hv & _ & _ & _ & Hlit).
  simpl in Hv. unfold GetBoolean. rewrite H.
  destruct Hlit as [Hlit | Hlit]; rewrite Hlit in Hv; subst v; [left | right];
    split; reflexivity.
Qed.

Lemma GetBoolean_reads_literal_witness :
  (Some (bs "false") = Some trueLiteral /\
   GetBoolean 3 (bs "{" ++ quoted "on" ++ bs ": false}") [bs "on"] = Done (true, None)) \/
  (Some (bs "false") = Some falseLiteral /\
   GetBoolean 3 (bs "{" ++ quoted "on" ++ bs ": false}") [bs "on"] = Done (false, None)).
Proof.
  apply (GetBoolean_reads_literal 3 (bs "{" ++ quoted "on" ++ bs ": false}") [bs "on"]
           (Some (bs "false")) 12).
  reflexivity.
Defined.

Lemma IndexByte_range_absent (s : bytes) (c : byte) (i : Z) :
  forallb (fun x : byte => negb (Byte.eqb x c)) s = true -> IndexByte_range i s c = -1.
Proof.
  revert i; induction s as [|x s IH]; simpl; intros i H; [reflexivity|].
  apply andb_true_iff in H as [Hx Hs]. apply negb_true_iff in Hx. rewrite Hx.
  now apply IH.
Qed.

Lemma plain_text_no_backslash (s : bytes) :
  plain_text s = true ->
  forallb (fun x : byte => negb (Byte.eqb x backslash)) s = true.
Proof.
  unfold plain_text. induction s as [|x s IH]; simpl; intros H; [reflexivity|].
  apply andb_true_iff in H as [Hx Hs]. apply andb_true_iff in Hx as [_ Hb].
  rewrite Hb. now apply IH.
Qed.

Lemma Get_plain_string (fuel : nat) (s rest : bytes) :
  plain_text s = true ->
  Get fuel (quote :: s ++ quote :: rest) [] = Done (Some s, String, len s + 2, None).
Proof.
  intros Hs. rewrite Get_at_value by reflexivity.
  now rewrite (proj1 (GetValue_plain_text s rest Hs)).
Qed.

(** X24.  A text without quotes and backslashes put between two quotes is
    returned as it is by [GetString], which does not call the unquoting
    routine for it, and by [GetUnsafeString]. *)
Theorem GetString_plain_text :
  forall (strconv_Unquote : bytes -> bytes * option error)
         (fuel : nat) (s rest : bytes),
    plain_text s = true ->
    GetString strconv_Unquote fuel (quote :: s ++ quote :: rest) [] = Done (s, None) /\
    GetUnsafeString fuel (quote :: s ++ quote :: rest) [] = Done (s, None).
Proof.
  intros strconv_Unquote fuel s rest Hs.
  unfold GetString, GetUnsafeString. rewrite (Get_plain_string fuel s rest Hs).
  split; [|reflexivity]. cbv iota beta.
  change (ValueType_eqb String String) with true. simpl negb. cbv iota.
  unfold IndexByte, contents.
  now rewrite (IndexByte_range_absent s backslash 0 (plain_text_no_backslash s Hs)).
Qed.

Lemma GetString_plain_text_witness :
  GetString (fun b : bytes => (b, None)) 0 (quoted "abc" ++ bs ", 1") [] =
    Done (bs "abc", None) /\
  GetUnsafeString 0 (quoted "abc" ++ bs ", 1") [] = Done (bs "abc", None).
Proof.
  apply (GetString_plain_text (fun b : bytes => (b, None)) 0 (bs "abc") (bs ", 1")).
  reflexivity.
Defined.

Lemma number_start_not_whitespace (c : byte) :
  is_number_start c = true -> is_whitespace c = false.
Proof. intros H; destruct c; try discriminate H; reflexivity. Qed.

(** X25.  On a buffer that starts with a number token, [GetInt] and
    [GetFloat] hand the parser exactly the bytes of the token, without the
    terminator, and return what the parser returns: base 10 and 64 bits for
    [GetInt], 64 bits for [GetFloat]. *)
Theorem GetInt_GetFloat_parse_token :
  forall (float64 : Type) (zero64 : float64)
         (strconv_ParseFloat : bytes -> Z -> float64 * option error)
         (strconv_ParseInt : bytes -> Z -> Z -> Z * option error)
         (fuel : nat) (c : byte) (rest : bytes) (k : nat),
    is_number_start c = true -> first_terminator_at (c :: rest) k ->
    GetInt strconv_ParseInt fuel (c :: rest) [] =
      Done (strconv_ParseInt (firstn k (c :: rest)) 10 64) /\
    GetFloat float64 zero64 strconv_ParseFloat fuel (c :: rest) [] =
      Done (strconv_ParseFloat (firstn k (c :: rest)) 64).
Proof.
  intros float64 zero64 strconv_ParseFloat strconv_ParseInt fuel c rest k Hc Hk.
  unfold GetInt, GetFloat.
  rewrite (Get_at_value fuel c rest (number_start_not_whitespace c Hc)).
  rewrite (GetValue_number_token c rest k Hc Hk). split; reflexivity.
Qed.

Lemma GetInt_GetFloat_parse_token_witness :
  GetInt (fun (b : bytes) (_ _ : Z) => (len b, None)) 0 (bs "-12]") [] =
    Done (3, None) /\
  GetFloat bytes [] (fun (b : bytes) (_ : Z) => (b, None)) 0 (bs "-12]") [] =
    Done (bs "-12", None).
Proof.
  apply (GetInt_GetFloat_parse_token bytes []
           (fun (b : bytes) (_ : Z) => (b, None))
           (fun (b : bytes) (_ _ : Z) => (len b, None)) 0 "-"%byte (bs "12]") 3%nat).
  - reflexivity.
  - split.
    + exists "]"%byte; split; reflexivity.
    + intros j Hj. do 3 (destruct j as [|j]; [reflexivity|]). lia.
Defined.

(** ** Brackets inside strings *)

(** X26.  Brackets inside a string do not count: for every text without
    quotes and backslashes, whatever brackets it holds, the array made of
    that one string ends at the bracket after the closing quote. *)
Theorem blockEnd_skips_string :
  forall s rest : bytes,
    plain_text s = true ->
    blockEnd (lbracket :: quote :: s ++ quote :: rbracket :: rest) lbracket rbracket =
    Done (len s + 4).
Proof.
  intros s rest Hs. unfold blockEnd.
  set (data := lbracket :: quote :: s ++ quote :: rbracket :: rest).
  pose proof (len_nonneg _ s) as Hpos. pose proof (len_nonneg _ rest) as Hrest.
  assert (Hlen : len data = len s + 4 + len rest).
  { unfold data, len. simpl List.length. rewrite length_app. simpl List.length. lia. }
  assert (Hfuel : exists fuel : nat, S (List.length data) = S (S (S fuel))).
  { exists (List.length s + 2 + List.length rest)%nat. unfold data.
    simpl List.length. rewrite length_app. simpl List.length. lia. }
  destruct Hfuel as [fuel ->].
  rewrite blockEnd_loop_unfold.
  destruct (Z.ltb_spec 0 (len data)) as [_|]; [|lia]. simpl negb. cbv iota.
  change (index data 0) with (Done lbracket). cbv iota.
  change (Byte.eqb lbracket quote) with false.
  change (Byte.eqb lbracket lbracket) with true. cbv iota.
  rewrite blockEnd_loop_unfold.
  destruct (Z.ltb_spec (0 + 1) (len data)) as [_|]; [|lia]. simpl negb. cbv iota.
  change (index data (0 + 1)) with (Done quote). cbv iota.
  change (Byte.eqb quote quote) with true. cbv iota.
  assert (Htail : slice_from data (0 + 1 + 1) = Done (s ++ quote :: rbracket :: rest)).
  { apply (slice_from_app [lbracket; quote]). reflexivity. }
  rewrite Htail, (stringEnd_plain s (rbracket :: rest) Hs).
  destruct (Z.eqb_spec (len s + 1) (-1)) as [|_]; [lia|].
  rewrite blockEnd_loop_unfold.
  destruct (Z.ltb_spec (0 + 1 + (len s + 1) + 1) (len data)) as [_|]; [|lia].
  simpl negb. cbv iota.
  assert (Hd : data = (lbracket :: quote :: s ++ [quote]) ++ rbracket :: rest).
  { unfold data. simpl. now rewrite <- app_assoc. }
  assert (Hclose : index data (0 + 1 + (len s + 1) + 1) = Done rbracket).
  { rewrite Hd. apply index_app_right. unfold len. simpl List.length.
    rewrite length_app. simpl List.length. lia. }
  rewrite Hclose. cbv iota.
  change (Byte.eqb rbracket quote) with false.
  change (Byte.eqb rbracket lbracket) with false.
  change (Byte.eqb rbracket rbracket) with true. cbv iota.
  change (0 + 1 - 1 =? 0) with true. cbv iota. f_equal. lia.
Qed.

Lemma blockEnd_skips_string_witness :
  blockEnd (lbracket :: quote :: bs "]]a[" ++ quote :: rbracket :: bs ",1") lbracket rbracket
  = Done 8.
Proof.
  apply (blockEnd_skips_string (bs "]]a[") (bs ",1")). reflexivity.
Defined.

(** * Strings and blocks as a lexer reads them *)

Lemma scan_snoc (count : Z -> byte -> Z) (data : bytes) (n : nat) (x : byte) :
  nth_error data n = Some x ->
  scan count (firstn (S n) data) = scan_step count (scan count (firstn n data)) x.
Proof.
  intros Hx. unfold scan. rewrite (firstn_succ_nth _ _ _ _ Hx).
  now rewrite fold_left_app.
Qed.

Lemma nth_error_skipn_shift (data : bytes) (n j : nat) :
  nth_error (skipn n data) j = nth_error data (n + j).
Proof.
  revert data; induction n as [|n IH]; intros [|y data]; simpl;
    try reflexivity; [now destruct j | apply IH].
Qed.

Lemma odd_succ_flip (m : nat) : Nat.odd (S m) = negb (Nat.odd m).
Proof. rewrite Nat.odd_succ, <- Nat.negb_odd. reflexivity. Qed.

(** Inside a string the forward lexer is escaped exactly when the
    backward count of backslashes is odd. *)
Lemma scan_in_string (count : Z -> byte -> Z) (data : bytes) (n : nat) (level : Z) :
  scan count (firstn n data) = (Outside, level) ->
  nth_error data n = Some quote ->
  forall j : nat,
    (j <= List.length (skipn (S n) data))%nat ->
    quotes_escaped_between (skipn (S n) data) 0 j ->
    scan count (firstn (S n + j) data) =
    (if Nat.odd (backslashes_before (skipn (S n) data) j) then Escaped else InString,
     level).
Proof.
  intros Hout Hq. induction j as [|j IH]; intros Hj Hesc.
  - rewrite Nat.add_0_r, (scan_snoc _ _ _ _ Hq), Hout. reflexivity.
  - assert (Hprev : quotes_escaped_between (skipn (S n) data) 0 j)
      by (intros k Hk; apply Hesc; lia).
    specialize (IH ltac:(lia) Hprev).
    destruct (nth_error (skipn (S n) data) j) as [x|] eqn:Ex;
      [|apply nth_error_None in Ex; lia].
    pose proof Ex as Hx. rewrite nth_error_skipn_shift in Hx.
    replace (S n + S j)%nat with (S (S n + j)) by lia.
    rewrite (scan_snoc _ _ _ _ Hx), IH.
    change (backslashes_before (skipn (S n) data) (S j))
      with (if Byte.eqb (nth j (skipn (S n) data) x00) backslash
            then S (backslashes_before (skipn (S n) data) j) else O).
    rewrite (nth_error_nth_byte _ _ _ Ex).
    destruct (Byte.eqb x backslash) eqn:Eb.
    + rewrite odd_succ_flip.
      destruct (Nat.odd (backslashes_before (skipn (S n) data) j));
        unfold scan_step; simpl; [reflexivity | now rewrite Eb].
    + destruct (Nat.odd (backslashes_before (skipn (S n) data) j)) eqn:Eodd;
        unfold scan_step; simpl; [reflexivity|].
      rewrite Eb. destruct (Byte.eqb x quote) eqn:Eq; [|reflexivity].
      apply Byte.byte_dec_bl in Eq; subst x.
      rewrite (Hesc j ltac:(lia) Ex) in Eodd. discriminate.
Qed.

(** The quote [stringEnd] stops at is where the forward lexer leaves the
    string. *)
Lemma scan_after_string (count : Z -> byte -> Z) (data : bytes) (n k : nat) (level : Z) :
  scan count (firstn n data) = (Outside, level) ->
  nth_error data n = Some quote ->
  unescaped_quote_at (skipn (S n) data) k ->
  quotes_escaped_between (skipn (S n) data) 0 k ->
  scan count (firstn (S (S n + k)) data) = (Outside, level).
Proof.
  intros Hout Hq [Hk Heven] Hesc.
  assert (Hlt : (k < List.length (skipn (S n) data))%nat)
    by (apply nth_error_Some; congruence).
  pose proof (scan_in_string count data n level Hout Hq k ltac:(lia) Hesc) as Hin.
  pose proof Hk as Hx. rewrite nth_error_skipn_shift in Hx.
  rewrite (scan_snoc _ _ _ _ Hx), Hin.
  unfold Nat.odd. rewrite Heven. reflexivity.
Qed.

Lemma scan_inside_string_not_outside (count : Z -> byte -> Z) (data : bytes)
  (n j : nat) (level level' : Z) :
  scan count (firstn n data) = (Outside, level) ->
  nth_error data n = Some quote ->
  (j <= List.length (skipn (S n) data))%nat ->
  quotes_escaped_between (skipn (S n) data) 0 j ->
  scan count (firstn (S n + j) data) <> (Outside, level').
Proof.
  intros Hout Hq Hj Hesc.
  rewrite (scan_in_string count data n level Hout Hq j Hj Hesc).
  destruct (Nat.odd _); discriminate.
Qed.

Lemma closes_value_in_range (openSym closeSym : byte) (data : bytes) (j : nat) :
  closes_value openSym closeSym data j -> (1 <= j <= List.length data)%nat.
Proof.
  intros (n & x & -> & Hx & _).
  assert (n < List.length data)%nat by (apply nth_error_Some; congruence). lia.
Qed.

(** The loop of [blockEnd] against the forward lexer. *)
Lemma blockEnd_loop_scan (fuel : nat) (data : bytes) (openSym closeSym : byte) :
  forall (n : nat) (level r : Z),
    blockEnd_loop fuel data openSym closeSym (Z.of_nat n) level = Done r ->
    scan (block_count openSym closeSym) (firstn n data) = (Outside, level) ->
    (forall j : nat, (j <= n)%nat -> ~ closes_value openSym closeSym data j) ->
    (exists m : nat, r = Z.of_nat m /\ first_close openSym closeSym data m)
    \/ (r = -1 /\ forall j : nat, ~ closes_value openSym closeSym data j).
Proof.
  induction fuel as [|fuel IH]; intros n level r H Hscan Hnone; [discriminate|].
  rewrite blockEnd_loop_unfold in H.
  destruct (Z.ltb_spec (Z.of_nat n) (len data)) as [Hlt|Hge]; simpl negb in H;
    cbv iota in H.
  2:{ injection H as <-. right; split; [reflexivity|]. intros j Hj.
      destruct (Nat.le_gt_cases j n) as [Hle|Hgt]; [exact (Hnone j Hle Hj)|].
      apply closes_value_in_range in Hj. unfold len in Hge. lia. }
  rewrite index_nth_error in H.
  destruct (nth_error data n) as [x|] eqn:Ex; [|discriminate].
  pose proof (scan_snoc (block_count openSym closeSym) _ _ _ Ex) as Hnext.
  rewrite Hscan in Hnext.
  assert (Hstep : forall level' : Z,
    Byte.eqb x quote = false ->
    block_count openSym closeSym level x = level' ->
    (level = 1 -> Byte.eqb x openSym = false -> Byte.eqb x closeSym = true -> False) ->
    blockEnd_loop fuel data openSym closeSym (Z.of_nat (S n)) level' = Done r ->
    (exists m : nat, r = Z.of_nat m /\ first_close openSym closeSym data m)
    \/ (r = -1 /\ forall j : nat, ~ closes_value openSym closeSym data j)).
  { intros level' Hxq Hcount Hnot Hrec. apply (IH (S n) level' r Hrec).
    - rewrite Hnext. unfold scan_step. simpl. now rewrite Hxq, Hcount.
    - intros j Hj Hclose. destruct (Nat.eq_dec j (S n)) as [->|Hne].
      + destruct Hclose as (n' & y & Hn' & Hy & Hs & _ & Ho & Hc).
        injection Hn' as <-. rewrite Ex in Hy; injection Hy as <-.
        rewrite Hscan in Hs. injection Hs as Hl. now apply Hnot.
      + apply (Hnone j); [lia | exact Hclose]. }
  destruct (Byte.eqb x quote) eqn:Eq.
  { apply Byte.byte_dec_bl in Eq; subst x.
    rewrite slice_from_in_range in H by lia.
    replace (Z.to_nat (Z.of_nat n + 1)) with (S n) in H by lia.
    set (tail := skipn (S n) data) in *.
    assert (Hin : forall j m : nat,
      (forall k : nat, (k < j)%nat -> nth_error tail k = Some quote ->
         Nat.odd (backslashes_before tail k) = true) ->
      (n <= m <= S n + j)%nat -> ~ closes_value openSym closeSym data (S m)).
    { intros j m Hesc Hm (n' & y & Hn' & Hy & Hs & Hyq & _). injection Hn' as <-.
      destruct (Nat.eq_dec m n) as [->|Hne];
        [rewrite Ex in Hy; injection Hy as <-; discriminate Hyq|].
      assert (Hmlt : (m < List.length data)%nat) by (apply nth_error_Some; congruence).
      assert (Hlen : List.length tail = (List.length data - S n)%nat)
        by (unfold tail; apply length_skipn).
      apply (scan_inside_string_not_outside (block_count openSym closeSym)
               data n (m - S n) level 1 Hscan Ex).
      - fold tail. lia.
      - fold tail. intros k Hk. apply Hesc. lia.
      - replace (S n + (m - S n))%nat with m by lia. exact Hs. }
    destruct (Z.eqb_spec (stringEnd tail) (-1)) as [Hse|Hse].
    - injection H as <-. right; split; [reflexivity|]. intros [|m] Hj;
        [destruct Hj as (? & ? & Habs & _); discriminate Habs|].
      destruct (Nat.lt_ge_cases m n) as [Hlt'|Hge']; [exact (Hnone (S m) Hlt' Hj)|].
      destruct (stringEnd_spec tail) as [(k & Hk & _) | [_ Hall]]; [lia|].
      apply (Hin (m - n)%nat m); [|lia | exact Hj].
      intros k Hk. apply (Hall (m - n)%nat). lia.
    - destruct (stringEnd_found _ Hse) as (k & Hk & Hu & Hesc).
      rewrite Hk in H.
      replace (Z.of_nat n + (Z.of_nat k + 1) + 1) with (Z.of_nat (S (S n + k))) in H
        by lia.
      apply (IH _ _ _ H).
      + exact (scan_after_string _ data n k level Hscan Ex Hu Hesc).
      + intros [|m] Hj Hclose;
          [destruct Hclose as (? & ? & Habs & _); discriminate Habs|].
        destruct (Nat.lt_ge_cases m n) as [Hlt'|Hge'];
          [exact (Hnone (S m) Hlt' Hclose)|].
        apply (Hin k m); [|lia | exact Hclose].
        intros k' Hk'. apply Hesc. lia. }
  destruct (Byte.eqb x openSym) eqn:Eo.
  { apply (Hstep (level + 1)); [reflexivity | | discriminate |].
    - unfold block_count. now rewrite Eo.
    - replace (Z.of_nat (S n)) with (Z.of_nat n + 1) by lia. exact H. }
  destruct (Byte.eqb x closeSym) eqn:Ec.
  2:{ apply (Hstep level); [reflexivity | | discriminate |].
      - unfold block_count. now rewrite Eo, Ec.
      - replace (Z.of_nat (S n)) with (Z.of_nat n + 1) by lia. exact H. }
  destruct (Z.eqb_spec (level - 1) 0) as [Hz|Hnz].
  - injection H as <-. left; exists (S n); split; [lia|]. split.
    + exists n, x. replace level with 1 in Hscan by lia. repeat split; auto.
    + intros j Hj. apply Hnone. lia.
  - apply (Hstep (level - 1)); [reflexivity | | intros; lia |].
    + unfold block_count. now rewrite Eo, Ec.
    + replace (Z.of_nat (S n)) with (Z.of_nat n + 1) by lia. exact H.
Qed.

(** [blockEnd] returns one past the first byte that closes the value, and
    [-1] when no byte closes it. *)
Lemma blockEnd_closes_value (data : bytes) (openSym closeSym : byte) (r : Z) :
  blockEnd data openSym closeSym = Done r ->
  (exists m : nat, r = Z.of_nat m /\ first_close openSym closeSym data m)
  \/ (r = -1 /\ forall j : nat, ~ closes_value openSym closeSym data j).
Proof.
  intros H. unfold blockEnd in H.
  apply (blockEnd_loop_scan _ data openSym closeSym 0 0 r H); [reflexivity|].
  intros j Hj Hclose. apply closes_value_in_range in Hclose. lia.
Qed.

(** ** The end of a value *)

(** C5.  When [GetValue] succeeds, the offset it returns stands just after
    the character that ends the value: one past the closing quote of a
    string; one past the bracket or brace that closes an array or object,
    which is the first closing symbol outside every string that brings the
    nesting back to zero; and on the token terminator, left unconsumed, of
    a number or literal. *)
Theorem GetValue_offset_after_terminator :
  forall (data : bytes) (value : slice) (dataType : ValueType) (offset : Z),
    GetValue data = Done (value, dataType, offset, None) ->
    offset_after_terminator data dataType offset.
Proof.
  intros data value dataType offset H. unfold GetValue in H.
  destruct (len data =? 0); [discriminate|].
  destruct (index data 0) as [c| |]; try discriminate.
  destruct (Byte.eqb c quote).
  { destruct (slice_from data 1) as [tail| |] eqn:Et; try discriminate.
    apply slice_from_one_tl in Et; subst tail.
    destruct (Z.eqb_spec (stringEnd (tl data)) (-1)) as [|Hse]; [discriminate|].
    destruct (slice_between data 1 (stringEnd (tl data))); try discriminate.
    injection H as _ <- <-.
    destruct (stringEnd_found _ Hse) as (k & Hr & Hu & Hskipped).
    rewrite Hr. split.
    - replace (Z.of_nat k + 1 + 1 - 1) with (Z.of_nat k + 1) by lia.
      apply index_succ_tl, Hu.
    - exists k; repeat split; try lia; try apply Hu; exact Hskipped. }
  destruct (Byte.eqb c lbracket).
  { destruct (blockEnd data lbracket rbracket) as [blockLen| |] eqn:Eb; try discriminate.
    destruct (Z.eqb_spec blockLen (-1)) as [|Hb]; [discriminate|].
    destruct (slice_to data blockLen); try discriminate.
    injection H as _ <- <-.
    destruct (blockEnd_result _ _ _ _ Eb) as [|[_ Hc]]; [contradiction|].
    split; [exact Hc|].
    destruct (blockEnd_closes_value _ _ _ _ Eb) as [(m & -> & Hfirst) | [Habs _]];
      [exists m; auto | contradiction]. }
  destruct (Byte.eqb c lbrace).
  { destruct (blockEnd data lbrace rbrace) as [blockLen| |] eqn:Eb; try discriminate.
    destruct (Z.eqb_spec blockLen (-1)) as [|Hb]; [discriminate|].
    destruct (slice_to data blockLen); try discriminate.
    injection H as _ <- <-.
    destruct (blockEnd_result _ _ _ _ Eb) as [|[_ Hc]]; [contradiction|].
    split; [exact Hc|].
    destruct (blockEnd_closes_value _ _ _ _ Eb) as [(m & -> & Hfirst) | [Habs _]];
      [exists m; auto | contradiction]. }
  destruct (is_literal_start c).
  { destruct (Z.eqb_spec (tokenEnd data) (-1)) as [|Ht]; [discriminate|].
    destruct (slice_to data (tokenEnd data)) as [token| |]; try discriminate.
    destruct (tokenEnd_found _ Ht) as (k & Hk & Hfirst).
    destruct (bytes_eqb token nullLiteral);
      [injection H as _ <- <-; exists k; auto|].
    destruct (bytes_eqb token trueLiteral || bytes_eqb token falseLiteral);
      [injection H as _ <- <-; exists k; auto | discriminate]. }
  destruct (is_number_start c); [|discriminate].
  destruct (Z.eqb_spec (tokenEnd data) (-1)) as [|Ht]; [discriminate|].
  destruct (slice_to data (tokenEnd data)) as [token| |]; try discriminate.
  destruct (tokenEnd_found _ Ht) as (k & Hk & Hfirst).
  injection H as _ <- <-; exists k; auto.
Qed.

Lemma GetValue_offset_witness :
  offset_after_terminator (quoted "a\" ++ quoted ",") String 5 /\
  offset_after_terminator (bs "[" ++ quoted "]" ++ bs ",[1]] ") Array 9 /\
  offset_after_terminator (bs "{" ++ quoted "}" ++ bs ":{}} ") Object 8 /\
  offset_after_terminator (bs "-12}") Number 3 /\
  offset_after_terminator (bs "null,") Null 4.
Proof.
  split; [|split; [|split; [|split]]].
  - apply (GetValue_offset_after_terminator (quoted "a\" ++ quoted ",")
             (Some (bs "a\" ++ [quote])) String 5); reflexivity.
  - apply (GetValue_offset_after_terminator (bs "[" ++ quoted "]" ++ bs ",[1]] ")
             (Some (bs "[" ++ quoted "]" ++ bs ",[1]]")) Array 9); reflexivity.
  - apply (GetValue_offset_after_terminator (bs "{" ++ quoted "}" ++ bs ":{}} ")
             (Some (bs "{" ++ quoted "}" ++ bs ":{}}")) Object 8); reflexivity.
  - apply (GetValue_offset_after_terminator (bs "-12}") (Some (bs "-12")) Number 3);
      reflexivity.
  - apply (GetValue_offset_after_terminator (bs "null,") None Null 4); reflexivity.
Defined.

(** ** Keys and arrays *)










